(** * Amount: multi-dimensional capacities (src/structures/vroom/amount.h)

    A shallow embedding of the classes [AmountImpl], [AmountDims],
    [AmountEmpty] and [Amount] of VROOM, together with the properties the
    specification states about them.

    The C++ code mutates objects in place through references and owns its
    representation through a [std::unique_ptr]; the embedding therefore
    keeps an explicit store of [AmountImpl] objects and passes references
    around as addresses, so that aliasing ([a.update_to_maxed(a)]) and
    deep copies are visible in the statements. *)

From Stdlib Require Import ZArith Lia.
From stdpp Require Import base option list gmap fin_maps.

Local Open Scope Z_scope.

(** ** The scalar type

    [Capacity] is declared in [structures/typedefs.h].  The classes use it
    through [0], [+=], [-=], [<], [>], [!=] and [std::max] only. *)

Inductive signedness : Set := Signed | Unsigned.

Abbreviation Capacity := Z.

(** Modelled from the spec: the declaration of [Capacity] in
    [structures/typedefs.h] is missing from the sources.  The spec makes it
    "an integral quantity per dimension; signed or unsigned", "a
    fixed-width integer supplied by the surrounding system".  Its
    signedness and width are parameters here.  A value is the integer it
    denotes, and the result of [+=] and [-=] is reduced into the range of
    the type: modulo [2 ^ width] for an unsigned type, in two's complement
    for a signed one.  Where the exact sum or difference is in the range,
    [wrap] leaves it as it is. *)
Definition wrap (sg : signedness) (width : positive) (z : Z) : Capacity :=
  match sg with
  | Unsigned => z mod 2 ^ Z.pos width
  | Signed =>
      (z + 2 ^ (Z.pos width - 1)) mod 2 ^ Z.pos width - 2 ^ (Z.pos width - 1)
  end.

(** A value of the type: an integer its width and signedness can hold. *)
Definition in_range (sg : signedness) (width : positive) (z : Z) : Prop :=
  wrap sg width z = z.

Definition in_rangeb (sg : signedness) (width : positive) (z : Z) : bool :=
  wrap sg width z =? z.

(** [std::max(a, b)] is [(a < b) ? b : a]. *)
Definition std_max (a b : Capacity) : Capacity := if a <? b then b else a.

(** ** Objects and the store *)

(** The two classes derived from [AmountImpl]; [AmountDims] has the one
    data member [elems]. *)
Inductive AmountImpl : Set :=
  | AmountDims (elems : list Capacity)
  | AmountEmpty.

Definition loc : Set := positive.

Abbreviation heap := (gmap loc AmountImpl).

(** [#ifdef NDEBUG]: whether [assert] is compiled in. *)
Inductive build : Set := Debug | Release.

(** What running a piece of code from a store leads to: a value and the
    store it leaves, the process aborted by a failed [assert] (with the
    store as it was then), or undefined behaviour. *)
Inductive outcome (A : Type) : Type :=
  | Ok (a : A) (h : heap)
  | Aborted (h : heap)
  | Undefined.

Arguments Ok {A} a h.
Arguments Aborted {A} h.
Arguments Undefined {A}.

Definition M (A : Type) : Type := heap -> outcome A.

Definition ret {A} (a : A) : M A := fun h => Ok a h.

Definition bind {A B} (m : M A) (k : A -> M B) : M B :=
  fun h =>
    match m h with
    | Ok a h' => k a h'
    | Aborted h' => Aborted h'
    | Undefined => Undefined
    end.

Notation "'let*' x ':=' m 'in' k" := (bind m (fun x => k))
  (at level 10, x name, m at level 100, k at level 200).

Definition abort {A} : M A := fun h => Aborted h.

Definition undefined {A} : M A := fun _ => Undefined.

(** [*p]: the object a pointer or reference designates. *)
Definition deref (l : loc) : M AmountImpl :=
  fun h => match h !! l with Some o => Ok o h | None => Undefined end.

(** [new T(...)]: a fresh object. *)
Definition alloc (o : AmountImpl) : M loc :=
  fun h => let l := fresh (dom h) in Ok l (<[l := o]> h).

(** [delete p]: the object is destroyed and its storage released; deleting
    what is not a live object is undefined. *)
Definition dealloc (l : loc) : M unit :=
  fun h => match h !! l with Some _ => Ok tt (delete l h) | None => Undefined end.

(** [static_cast<AmountDims const &>(other).elems]: the cast of an object
    that is not an [AmountDims] is undefined. *)
Definition elems_of (l : loc) : M (list Capacity) :=
  let* o := deref l in
  match o with
  | AmountDims e => ret e
  | AmountEmpty => undefined
  end.

(** [elems.size()] *)
Definition elems_size (l : loc) : M nat :=
  let* e := elems_of l in ret (length e).

(** [elems[i]] read; [operator[]] out of range is undefined. *)
Definition read_elem (l : loc) (i : nat) : M Capacity :=
  let* e := elems_of l in
  match e !! i with
  | Some x => ret x
  | None => undefined
  end.

(** [elems[i] = v] *)
Definition write_elem (l : loc) (i : nat) (v : Capacity) : M unit :=
  let* e := elems_of l in
  if decide (i < length e)%nat
  then fun h => Ok tt (<[l := AmountDims (<[i := v]> e)]> h)
  else undefined.

(** [for (std::size_t i = lo; i < lo + n; ++i) body(i)]; the loops of this
    file never change the bound they test against. *)
Fixpoint for_range (n : nat) (i : nat) (body : nat -> M unit) : M unit :=
  match n with
  | O => ret tt
  | S n' => let* _ := body i in for_range n' (S i) body
  end.

(** The same loop when the body may [return r] from the enclosing
    function ([Some r]); [None] falls through to the next iteration and
    finally to the statement after the loop. *)
Fixpoint for_range_return {R} (n : nat) (i : nat)
    (body : nat -> M (option R)) : M (option R) :=
  match n with
  | O => ret None
  | S n' =>
      let* r := body i in
      match r with
      | Some v => ret (Some v)
      | None => for_range_return n' (S i) body
      end
  end.

(** ** The classes *)

Section Classes.

Variable sg : signedness.
Variable width : positive.
Variable mode : build.

(** [assert(c)]: nothing at all under [NDEBUG] (the condition is not even
    evaluated), otherwise the condition is evaluated and the process
    aborts when it is false. *)
Definition assert_ (c : M bool) : M unit :=
  match mode with
  | Release => ret tt
  | Debug => let* b := c in if b then ret tt else abort
  end.

(** [elems.size() == static_cast<AmountDims const &>(other).elems.size()] *)
Definition same_size (this other : loc) : M bool :=
  let* n := elems_size this in
  let* n' := elems_size other in
  ret (Nat.eqb n n').

(** *** class AmountDims *)

(** [AmountDims(std::size_t size) : elems(size, 0)] *)
Definition AmountDims_of_size (size : nat) : AmountImpl :=
  AmountDims (replicate size 0).

(** [AmountDims(std::vector<Capacity> elems) : elems(elems)] *)
Definition AmountDims_of_elems (elems : list Capacity) : AmountImpl :=
  AmountDims elems.

(** [clone()]: a new [AmountDims], copy-constructed from this one. *)
Definition AmountDims_clone (this : loc) : M loc :=
  let* e := elems_of this in alloc (AmountDims e).

Definition AmountDims_is_less (this other : loc) : M bool :=
  let* _ := assert_ (same_size this other) in
  let* n := elems_size this in
  if Nat.eqb n 0 then ret false
  else
    let last_rank := (n - 1)%nat in
    let* r := for_range_return last_rank 0 (fun i =>
      let* x := read_elem this i in
      let* y := read_elem other i in
      if x <? y then ret (Some true)
      else
        let* x' := read_elem this i in
        let* y' := read_elem other i in
        if x' >? y' then ret (Some false) else ret None) in
    match r with
    | Some b => ret b
    | None =>
        let* x := read_elem this last_rank in
        let* y := read_elem other last_rank in
        ret (x <? y)
    end.

Definition AmountDims_is_equal (this other : loc) : M bool :=
  let* _ := assert_ (same_size this other) in
  let* n := elems_size this in
  let* r := for_range_return n 0 (fun i =>
    let* x := read_elem this i in
    let* y := read_elem other i in
    if negb (x =? y) then ret (Some false) else ret None) in
  match r with
  | Some b => ret b
  | None => ret true
  end.

Definition AmountDims_add (this other : loc) : M unit :=
  let* _ := assert_ (same_size this other) in
  let* n := elems_size this in
  for_range n 0 (fun i =>
    let* x := read_elem this i in
    let* y := read_elem other i in
    write_elem this i (wrap sg width (x + y))).

Definition AmountDims_sub (this other : loc) : M unit :=
  let* _ := assert_ (same_size this other) in
  let* n := elems_size this in
  for_range n 0 (fun i =>
    let* x := read_elem this i in
    let* y := read_elem other i in
    write_elem this i (wrap sg width (x - y))).

Definition AmountDims_update_to_maxed (this other : loc) : M unit :=
  let* _ := assert_ (same_size this other) in
  let* n := elems_size this in
  for_range n 0 (fun i =>
    let* x := read_elem this i in
    let* y := read_elem other i in
    write_elem this i (std_max x y)).

(** [std::fill(elems.begin(), elems.end(), 0);] *)
Definition AmountDims_set_zero (this : loc) : M unit :=
  let* n := elems_size this in
  for_range n 0 (fun i => write_elem this i 0).

(** *** class AmountEmpty *)

(** [clone()]: a new [AmountEmpty]. *)
Definition AmountEmpty_clone (this : loc) : M loc := alloc AmountEmpty.

Definition AmountEmpty_is_less (this other : loc) : M bool := ret false.

Definition AmountEmpty_is_equal (this other : loc) : M bool := ret true.

Definition AmountEmpty_add (this other : loc) : M unit := ret tt.

Definition AmountEmpty_sub (this other : loc) : M unit := ret tt.

Definition AmountEmpty_update_to_maxed (this other : loc) : M unit := ret tt.

Definition AmountEmpty_set_zero (this : loc) : M unit := ret tt.

(** *** class AmountImpl: the virtual calls, dispatched on the class of
    the object [this] designates. *)

Definition AmountImpl_clone (this : loc) : M loc :=
  let* o := deref this in
  match o with
  | AmountDims _ => AmountDims_clone this
  | AmountEmpty => AmountEmpty_clone this
  end.

Definition AmountImpl_is_less (this other : loc) : M bool :=
  let* o := deref this in
  match o with
  | AmountDims _ => AmountDims_is_less this other
  | AmountEmpty => AmountEmpty_is_less this other
  end.

Definition AmountImpl_is_equal (this other : loc) : M bool :=
  let* o := deref this in
  match o with
  | AmountDims _ => AmountDims_is_equal this other
  | AmountEmpty => AmountEmpty_is_equal this other
  end.

Definition AmountImpl_add (this other : loc) : M unit :=
  let* o := deref this in
  match o with
  | AmountDims _ => AmountDims_add this other
  | AmountEmpty => AmountEmpty_add this other
  end.

Definition AmountImpl_sub (this other : loc) : M unit :=
  let* o := deref this in
  match o with
  | AmountDims _ => AmountDims_sub this other
  | AmountEmpty => AmountEmpty_sub this other
  end.

Definition AmountImpl_update_to_maxed (this other : loc) : M unit :=
  let* o := deref this in
  match o with
  | AmountDims _ => AmountDims_update_to_maxed this other
  | AmountEmpty => AmountEmpty_update_to_maxed this other
  end.

Definition AmountImpl_set_zero (this : loc) : M unit :=
  let* o := deref this in
  match o with
  | AmountDims _ => AmountDims_set_zero this
  | AmountEmpty => AmountEmpty_set_zero this
  end.

(** *** class Amount

    The one data member is [std::unique_ptr<AmountImpl> m_impl]. *)

Record Amount : Set := { m_impl : loc }.

(** [std::make_unique<T>(...)] *)
Definition make_unique (o : AmountImpl) : M loc := alloc o.

(** [Amount() : m_impl(std::make_unique<AmountEmpty>())] *)
Definition Amount_default : M Amount :=
  let* p := make_unique AmountEmpty in ret {| m_impl := p |}.

(** [Amount(std::unique_ptr<AmountImpl> impl) : m_impl(std::move(impl))] *)
Definition Amount_of_impl (impl : loc) : M Amount :=
  ret {| m_impl := impl |}.

(** [Amount(Amount const & other) : m_impl(other.m_impl->clone())] *)
Definition Amount_copy (other : Amount) : M Amount :=
  let* p := AmountImpl_clone (m_impl other) in ret {| m_impl := p |}.

(** [operator=]: [m_impl.reset(other.m_impl->clone())].  The argument is
    evaluated first; [reset] then stores the new pointer and deletes the
    object owned before.  The reference returned is [this], with its new
    [m_impl]. *)
Definition Amount_operator_assign (this other : Amount) : M Amount :=
  let* p := AmountImpl_clone (m_impl other) in
  let* _ := dealloc (m_impl this) in
  ret {| m_impl := p |}.

(** [operator+=]; the reference it returns is [this]. *)
Definition Amount_operator_plus_assign (this other : Amount) : M Amount :=
  let* _ := AmountImpl_add (m_impl this) (m_impl other) in ret this.

(** [operator-=] *)
Definition Amount_operator_minus_assign (this other : Amount) : M Amount :=
  let* _ := AmountImpl_sub (m_impl this) (m_impl other) in ret this.

(** [operator==] *)
Definition Amount_operator_eq (this other : Amount) : M bool :=
  AmountImpl_is_equal (m_impl this) (m_impl other).

(** [operator<=]; [||] evaluates its right operand only when the left one
    is false. *)
Definition Amount_operator_le (this other : Amount) : M bool :=
  let* l := AmountImpl_is_less (m_impl this) (m_impl other) in
  if l then ret true
  else AmountImpl_is_equal (m_impl this) (m_impl other).

(** [operator<<] *)
Definition Amount_operator_shl (this other : Amount) : M bool :=
  AmountImpl_is_less (m_impl this) (m_impl other).

Definition Amount_update_to_maxed (this other : Amount) : M unit :=
  AmountImpl_update_to_maxed (m_impl this) (m_impl other).

Definition Amount_get_zero (this : Amount) : M Amount :=
  let* copy := Amount_copy this in
  let* _ := AmountImpl_set_zero (m_impl copy) in
  ret copy.

(** The free [operator+] *)
Definition operator_plus (lhs rhs : Amount) : M Amount :=
  let* result := Amount_copy lhs in
  let* _ := Amount_operator_plus_assign result rhs in
  ret result.

(** The free [operator-] *)
Definition operator_minus (lhs rhs : Amount) : M Amount :=
  let* result := Amount_copy lhs in
  let* _ := Amount_operator_minus_assign result rhs in
  ret result.

End Classes.

(** ** What the operations compute, as functions of the contents

    These are the values the proofs below show the loops to compute; they
    are stated on the sequences held by the two objects. *)

(** The first pair of corresponding elements on which [f] decides. *)
Fixpoint scan {R} (f : Capacity -> Capacity -> option R)
    (a b : list Capacity) : option R :=
  match a, b with
  | x :: a', y :: b' =>
      match f x y with
      | Some r => Some r
      | None => scan f a' b'
      end
  | _, _ => None
  end.

Definition less_step (x y : Capacity) : option bool :=
  if x <? y then Some true else if x >? y then Some false else None.

Definition equal_step (x y : Capacity) : option bool :=
  if negb (x =? y) then Some false else None.

Definition dims_less (a b : list Capacity) : bool :=
  match length a with
  | O => false
  | S last_rank =>
      match scan less_step (take last_rank a) (take last_rank b) with
      | Some r => r
      | None =>
          match a !! last_rank, b !! last_rank with
          | Some x, Some y => x <? y
          | _, _ => false
          end
      end
  end.

Definition dims_equal (a b : list Capacity) : bool :=
  match scan equal_step a b with
  | Some r => r
  | None => true
  end.

(** The answers of the virtual [is_less] and [is_equal], by the class of
    [this]. *)
Definition impl_less (o o' : AmountImpl) : bool :=
  match o, o' with
  | AmountDims e, AmountDims e' => dims_less e e'
  | _, _ => false
  end.

Definition impl_equal (o o' : AmountImpl) : bool :=
  match o, o' with
  | AmountDims e, AmountDims e' => dims_equal e e'
  | _, _ => true
  end.

(** Two objects have the same shape: the same class and, for
    [AmountDims], the same number of dimensions. *)
Definition same_shape (o o' : AmountImpl) : Prop :=
  match o, o' with
  | AmountDims e, AmountDims e' => length e = length e'
  | AmountEmpty, AmountEmpty => True
  | _, _ => False
  end.

(** Every element of the object is a value of the scalar type. *)
Definition well_formed (sg : signedness) (width : positive)
    (o : AmountImpl) : Prop :=
  match o with
  | AmountDims e => Forall (in_range sg width) e
  | AmountEmpty => True
  end.

(** The object left in [this] by an elementwise in-place operation. *)
Definition combined (f : Capacity -> Capacity -> Capacity)
    (o o' : AmountImpl) : AmountImpl :=
  match o, o' with
  | AmountDims e, AmountDims e' => AmountDims (zip_with f e e')
  | _, _ => o
  end.

(** The object left by [set_zero]. *)
Definition zeroed (o : AmountImpl) : AmountImpl :=
  match o with
  | AmountDims e => AmountDims (replicate (length e) 0)
  | AmountEmpty => AmountEmpty
  end.

(** The strict lexicographic order on sequences, over all their
    dimensions: the order [is_less] is compared with below. *)
Fixpoint lex_less (a b : list Capacity) : bool :=
  match a, b with
  | x :: a', y :: b' => (x <? y) || ((x =? y) && lex_less a' b')
  | _, _ => false
  end.

(** Whenever the code returns or aborts, the store is as it was. *)
Definition leaves_store {A} (m : M A) : Prop :=
  forall h,
    match m h with
    | Ok _ h' | Aborted h' => h' = h
    | Undefined => True
    end.

(** The shape of an object: its number of dimensions, or nothing for an
    [AmountEmpty]. *)
Definition shape_of (o : AmountImpl) : option nat :=
  match o with
  | AmountDims e => Some (length e)
  | AmountEmpty => None
  end.

(** Whenever the code returns or aborts, every object the store had is as
    it was (the code may have made new ones). *)
Definition preserves_objects {A} (m : M A) : Prop :=
  forall h,
    match m h with
    | Ok _ h' | Aborted h' => forall l, is_Some (h !! l) -> h' !! l = h !! l
    | Undefined => True
    end.

(** The store [h'] differs from [h] at most in the object at [this], and
    that object has kept its shape. *)
Definition in_place (this : loc) (h h' : heap) : Prop :=
  (forall l, l <> this -> h' !! l = h !! l) /\
  (forall o, h !! this = Some o ->
             exists o', h' !! this = Some o' /\ same_shape o o').

(** Whenever the code returns or aborts, it has modified [this] in place
    and nothing else. *)
Definition modifies_in_place {A} (this : loc) (m : M A) : Prop :=
  forall h,
    match m h with
    | Ok _ h' | Aborted h' => in_place this h h'
    | Undefined => True
    end.

(** Neither operand has been shortened or extended: in [h'] the object at
    [this] is an [AmountDims] of [n] dimensions and the one at [other] an
    [AmountDims] of [n'] dimensions. *)
Definition lengths_kept (h' : heap) (this other : loc) (n n' : nat) : Prop :=
  (exists e, h' !! this = Some (AmountDims e) /\ length e = n) /\
  (exists e', h' !! other = Some (AmountDims e') /\ length e' = n').

(** Exactly one of three answers is true. *)
Definition exactly_one (p q r : bool) : Prop :=
  (p = true /\ q = false /\ r = false) \/
  (p = false /\ q = true /\ r = false) \/
  (p = false /\ q = false /\ r = true).

(** ** The stores of the specification's examples *)

(** Example 1: [a = [2,5,1]] at address 1 and [b = [2,3,9]] at address 2. *)
Definition store_example_1 : heap :=
  <[2%positive := AmountDims [2; 3; 9]]>
    (<[1%positive := AmountDims [2; 5; 1]]> ∅).

(** Example 2: [a = [1,2]] and [b = [1,2]]. *)
Definition store_example_2 : heap :=
  <[2%positive := AmountDims [1; 2]]> (<[1%positive := AmountDims [1; 2]]> ∅).

(** Example 3: a 2-dimensional amount and a 3-dimensional one. *)
Definition store_example_3 : heap :=
  <[2%positive := AmountDims [1; 2; 3]]>
    (<[1%positive := AmountDims [1; 2]]> ∅).

(** Two [AmountEmpty] objects. *)
Definition store_empty_pair : heap :=
  <[2%positive := AmountEmpty]> (<[1%positive := AmountEmpty]> ∅).

(** Three amounts in increasing order: [[1,2]], [[1,5]] and [[2,0]]. *)
Definition store_increasing : heap :=
  <[3%positive := AmountDims [2; 0]]>
    (<[2%positive := AmountDims [1; 5]]>
       (<[1%positive := AmountDims [1; 2]]> ∅)).

(** An [AmountEmpty] at address 1 and an [AmountDims] at address 2. *)
Definition store_mixed : heap :=
  <[2%positive := AmountDims [1; 2]]> (<[1%positive := AmountEmpty]> ∅).

(** The wrapper of the object at an address. *)
Definition amount_at (p : positive) : Amount := {| m_impl := p |}.

(** ** The scalar type: arithmetic facts *)

Section Scalar.

Variable sg : signedness.
Variable width : positive.

Lemma half_range : 0 < 2 ^ (Z.pos width - 1) < 2 ^ Z.pos width.
Proof.
  split.
  - apply Z.pow_pos_nonneg; lia.
  - apply Z.pow_lt_mono_r; lia.
Qed.

Lemma wrap_zero : wrap sg width 0 = 0.
Proof.
  unfold wrap. destruct sg.
  - rewrite Z.add_0_l, Z.mod_small by (pose proof half_range; lia). lia.
  - apply Z.mod_0_l. pose proof half_range; lia.
Qed.

Lemma wrap_sub_wrap_add (x y : Z) :
  wrap sg width (wrap sg width (x + y) - y) = wrap sg width x.
Proof.
  unfold wrap. destruct sg.
  - replace ((x + y + 2 ^ (Z.pos width - 1)) mod 2 ^ Z.pos width
             - 2 ^ (Z.pos width - 1) - y + 2 ^ (Z.pos width - 1))
      with ((x + y + 2 ^ (Z.pos width - 1)) mod 2 ^ Z.pos width - y) by lia.
    rewrite Zminus_mod_idemp_l. do 2 f_equal. lia.
  - rewrite Zminus_mod_idemp_l. f_equal. lia.
Qed.

Lemma add_then_sub (x y : Z) :
  in_range sg width x ->
  wrap sg width (wrap sg width (x + y) - y) = x.
Proof. intros Hx. rewrite wrap_sub_wrap_add. exact Hx. Qed.

Lemma zero_add (x : Z) : in_range sg width x -> wrap sg width (0 + x) = x.
Proof. intros Hx. rewrite Z.add_0_l. exact Hx. Qed.

Lemma sub_self (x : Z) : wrap sg width (x - x) = 0.
Proof. rewrite Z.sub_diag. apply wrap_zero. Qed.

Lemma pow_width : 2 ^ Z.pos width = 2 * 2 ^ (Z.pos width - 1).
Proof.
  replace (Z.pos width) with (Z.succ (Z.pos width - 1)) at 1 by lia.
  apply Z.pow_succ_r. lia.
Qed.

Lemma in_rangeb_spec (x : Z) : in_rangeb sg width x = true <-> in_range sg width x.
Proof. unfold in_rangeb, in_range. apply Z.eqb_eq. Qed.

End Scalar.

(** The values of the type are the integers of the usual ranges. *)
Lemma in_range_unsigned (width : positive) (z : Z) :
  in_range Unsigned width z <-> 0 <= z < 2 ^ Z.pos width.
Proof.
  unfold in_range, wrap. pose proof (half_range width) as Hh. split.
  - intros <-. apply Z.mod_pos_bound. lia.
  - intros Hz. apply Z.mod_small. exact Hz.
Qed.

Lemma in_range_signed (width : positive) (z : Z) :
  in_range Signed width z
  <-> - 2 ^ (Z.pos width - 1) <= z < 2 ^ (Z.pos width - 1).
Proof.
  unfold in_range, wrap. pose proof (half_range width) as Hh.
  pose proof (pow_width width) as Hp. split.
  - intros Hz.
    pose proof (Z.mod_pos_bound (z + 2 ^ (Z.pos width - 1)) (2 ^ Z.pos width)
                  ltac:(lia)).
    lia.
  - intros Hz. rewrite Z.mod_small by lia. lia.
Qed.

Lemma std_max_is_max (x y : Z) : std_max x y = Z.max x y.
Proof. unfold std_max. destruct (Z.ltb_spec x y); lia. Qed.

Lemma std_max_self (x : Z) : std_max x x = x.
Proof. unfold std_max. rewrite Z.ltb_irrefl. reflexivity. Qed.

(** ** Running code on a store *)

Lemma bind_ok {A B} (m : M A) (k : A -> M B) h a h' :
  m h = Ok a h' -> bind m k h = k a h'.
Proof. unfold bind. intros ->. reflexivity. Qed.

Lemma bind_aborted {A B} (m : M A) (k : A -> M B) h h' :
  m h = Aborted h' -> bind m k h = Aborted h'.
Proof. unfold bind. intros ->. reflexivity. Qed.

Lemma deref_ok (h : heap) l o : h !! l = Some o -> deref l h = Ok o h.
Proof. unfold deref. intros ->. reflexivity. Qed.

Lemma elems_of_ok (h : heap) l e :
  h !! l = Some (AmountDims e) -> elems_of l h = Ok e h.
Proof.
  intros Hl. unfold elems_of. rewrite (bind_ok _ _ _ _ _ (deref_ok _ _ _ Hl)).
  reflexivity.
Qed.

Lemma elems_size_ok (h : heap) l e :
  h !! l = Some (AmountDims e) -> elems_size l h = Ok (length e) h.
Proof.
  intros Hl. unfold elems_size.
  rewrite (bind_ok _ _ _ _ _ (elems_of_ok _ _ _ Hl)). reflexivity.
Qed.

Lemma read_elem_ok (h : heap) l e i x :
  h !! l = Some (AmountDims e) -> e !! i = Some x -> read_elem l i h = Ok x h.
Proof.
  intros Hl Hi. unfold read_elem.
  rewrite (bind_ok _ _ _ _ _ (elems_of_ok _ _ _ Hl)), Hi. reflexivity.
Qed.

Lemma write_elem_ok (h : heap) l e i v :
  h !! l = Some (AmountDims e) -> (i < length e)%nat ->
  write_elem l i v h = Ok tt (<[l := AmountDims (<[i := v]> e)]> h).
Proof.
  intros Hl Hi. unfold write_elem.
  rewrite (bind_ok _ _ _ _ _ (elems_of_ok _ _ _ Hl)).
  destruct (decide (i < length e)%nat); [reflexivity | contradiction].
Qed.

Lemma alloc_ok (h : heap) o :
  alloc o h = Ok (fresh (dom h)) (<[fresh (dom h) := o]> h).
Proof. reflexivity. Qed.

Lemma fresh_lookup (h : heap) : h !! fresh (dom h) = None.
Proof. apply not_elem_of_dom, is_fresh. Qed.

Lemma fresh_ne (h : heap) l o : h !! l = Some o -> l ≠ fresh (dom h).
Proof. intros Hl ->. rewrite fresh_lookup in Hl. discriminate. Qed.

(** Allocation leaves the objects the store had where they were. *)
Lemma lookup_alloc_old (h : heap) l o v :
  h !! l = Some o -> <[fresh (dom h) := v]> h !! l = Some o.
Proof.
  intros Hl. rewrite lookup_insert_ne; [exact Hl|].
  apply not_eq_sym, (fresh_ne _ _ _ Hl).
Qed.

(** A loop that only reads: it returns at the first index where the body
    decides. *)
Lemma for_range_return_scan {R} (f : Capacity -> Capacity -> option R)
    (body : nat -> M (option R)) (h : heap) (ea eb : list Capacity) :
  (forall i x y, ea !! i = Some x -> eb !! i = Some y ->
                 body i h = Ok (f x y) h) ->
  forall n i, (i + n <= length ea)%nat -> (i + n <= length eb)%nat ->
    for_range_return n i body h
    = Ok (scan f (take n (drop i ea)) (take n (drop i eb))) h.
Proof.
  intros Hbody. induction n as [|n IH]; intros i Ha Hb; simpl.
  - reflexivity.
  - destruct (lookup_lt_is_Some_2 ea i) as [x Hx]; [lia|].
    destruct (lookup_lt_is_Some_2 eb i) as [y Hy]; [lia|].
    rewrite (drop_S _ _ _ Hx), (drop_S _ _ _ Hy). simpl.
    rewrite (bind_ok _ _ _ _ _ (Hbody _ _ _ Hx Hy)).
    destruct (f x y); [reflexivity|].
    apply IH; lia.
Qed.

(** The elementwise loops: after the iterations below [i] the object holds
    the new values up to [i] and the old ones from [i] on.  [other] may be
    the very object [this]. *)
Lemma for_range_zip (f : Capacity -> Capacity -> Capacity) (this other : loc)
    (h : heap) (ea eb : list Capacity) :
  h !! this = Some (AmountDims ea) ->
  h !! other = Some (AmountDims eb) ->
  length ea = length eb ->
  forall n i, (i + n = length ea)%nat ->
    for_range n i (fun i =>
        let* x := read_elem this i in
        let* y := read_elem other i in
        write_elem this i (f x y))
      (<[this := AmountDims (take i (zip_with f ea eb) ++ drop i ea)]> h)
    = Ok tt (<[this := AmountDims (zip_with f ea eb)]> h).
Proof.
  intros Hthis Hother Hlen.
  assert (Hzl : length (zip_with f ea eb) = length ea).
  { rewrite length_zip_with. lia. }
  induction n as [|n IH]; intros i Hi; simpl.
  - rewrite take_ge, drop_ge, app_nil_r by lia. reflexivity.
  - destruct (lookup_lt_is_Some_2 ea i) as [x Hx]; [lia|].
    destruct (lookup_lt_is_Some_2 eb i) as [y Hy]; [lia|].
    set (cur := take i (zip_with f ea eb) ++ drop i ea).
    assert (Hcur : cur !! i = Some x).
    { unfold cur. rewrite lookup_app_r; rewrite length_take; [|lia].
      replace (i - i `min` length (zip_with f ea eb))%nat with 0%nat by lia.
      rewrite lookup_drop, Nat.add_0_r. exact Hx. }
    assert (Hcl : length cur = length ea).
    { unfold cur. rewrite length_app, length_take, length_drop. lia. }
    assert (Hy' : exists eo, <[this := AmountDims cur]> h !! other
                             = Some (AmountDims eo) /\ eo !! i = Some y).
    { destruct (decide (this = other)) as [->|Hne].
      - exists cur. rewrite lookup_insert_eq. split; [reflexivity|].
        rewrite Hthis in Hother. injection Hother as <-. congruence.
      - exists eb. rewrite lookup_insert_ne by exact Hne. auto. }
    destruct Hy' as (eo & Ho & Hoi).
    erewrite bind_ok; cycle 1.
    { rewrite (bind_ok _ _ _ _ _
                 (read_elem_ok _ _ _ _ _ (lookup_insert_eq _ _ _) Hcur)).
      rewrite (bind_ok _ _ _ _ _ (read_elem_ok _ _ _ _ _ Ho Hoi)).
      apply write_elem_ok; [apply lookup_insert_eq | lia]. }
    rewrite insert_insert_eq.
    replace (<[i := f x y]> cur)
      with (take (S i) (zip_with f ea eb) ++ drop (S i) ea).
    { apply IH. lia. }
    unfold cur.
    rewrite insert_app_r_alt; rewrite length_take; [|lia].
    replace (i - i `min` length (zip_with f ea eb))%nat with 0%nat by lia.
    rewrite (drop_S _ _ _ Hx). simpl.
    rewrite (take_S_r _ _ (f x y)).
    + rewrite <- app_assoc. reflexivity.
    + rewrite lookup_zip_with, Hx. simpl. rewrite Hy. reflexivity.
Qed.

(** The loop of [std::fill]. *)
Lemma for_range_fill (this : loc) (v : Capacity) (h : heap)
    (ea : list Capacity) :
  h !! this = Some (AmountDims ea) ->
  forall n i, (i + n = length ea)%nat ->
    for_range n i (fun i => write_elem this i v)
      (<[this := AmountDims (replicate i v ++ drop i ea)]> h)
    = Ok tt (<[this := AmountDims (replicate (length ea) v)]> h).
Proof.
  intros Hthis. induction n as [|n IH]; intros i Hi; simpl.
  - rewrite drop_ge, app_nil_r by lia. replace i with (length ea) by lia.
    reflexivity.
  - destruct (lookup_lt_is_Some_2 ea i) as [x Hx]; [lia|].
    erewrite bind_ok; cycle 1.
    { apply write_elem_ok; [apply lookup_insert_eq|].
      rewrite length_app, length_replicate, length_drop. lia. }
    rewrite insert_insert_eq.
    replace (<[i := v]> (replicate i v ++ drop i ea))
      with (replicate (S i) v ++ drop (S i) ea).
    { apply IH. lia. }
    rewrite insert_app_r_alt; rewrite length_replicate; [|lia].
    rewrite Nat.sub_diag, (drop_S _ _ _ Hx).
    rewrite replicate_S_end, <- app_assoc. reflexivity.
Qed.

(** ** The member functions, on objects of matching shape *)

Section Members.

Variable sg : signedness.
Variable width : positive.
Variable mode : build.

Lemma assert_same_size_ok (h : heap) this other ea eb :
  h !! this = Some (AmountDims ea) ->
  h !! other = Some (AmountDims eb) ->
  length ea = length eb ->
  assert_ mode (same_size this other) h = Ok tt h.
Proof.
  intros Ha Hb Hlen. unfold assert_. destruct mode; [|reflexivity].
  assert (E : same_size this other h = Ok true h).
  { unfold same_size.
    rewrite (bind_ok _ _ _ _ _ (elems_size_ok _ _ _ Ha)).
    rewrite (bind_ok _ _ _ _ _ (elems_size_ok _ _ _ Hb)).
    rewrite Hlen, Nat.eqb_refl. reflexivity. }
  cbv iota. rewrite (bind_ok _ _ _ _ _ E). reflexivity.
Qed.

Lemma AmountDims_is_less_ok (h : heap) this other ea eb :
  h !! this = Some (AmountDims ea) ->
  h !! other = Some (AmountDims eb) ->
  length ea = length eb ->
  AmountDims_is_less mode this other h = Ok (dims_less ea eb) h.
Proof.
  intros Ha Hb Hlen. unfold AmountDims_is_less, dims_less.
  rewrite (bind_ok _ _ _ _ _ (assert_same_size_ok _ _ _ _ _ Ha Hb Hlen)).
  rewrite (bind_ok _ _ _ _ _ (elems_size_ok _ _ _ Ha)).
  destruct (length ea) as [|k] eqn:Hn; [reflexivity|].
  change (Nat.eqb (S k) 0) with false. cbv iota zeta.
  replace (S k - 1)%nat with k by lia.
  erewrite bind_ok; cycle 1.
  { apply (for_range_return_scan less_step) with (ea := ea) (eb := eb);
      [|lia|lia].
    intros i x y Hx Hy.
    rewrite (bind_ok _ _ _ _ _ (read_elem_ok _ _ _ _ _ Ha Hx)).
    rewrite (bind_ok _ _ _ _ _ (read_elem_ok _ _ _ _ _ Hb Hy)).
    unfold less_step. destruct (x <? y); [reflexivity|].
    rewrite (bind_ok _ _ _ _ _ (read_elem_ok _ _ _ _ _ Ha Hx)).
    rewrite (bind_ok _ _ _ _ _ (read_elem_ok _ _ _ _ _ Hb Hy)).
    destruct (x >? y); reflexivity. }
  rewrite !drop_0.
  destruct (scan less_step (take k ea) (take k eb)); [reflexivity|].
  destruct (lookup_lt_is_Some_2 ea k) as [x Hx]; [lia|].
  destruct (lookup_lt_is_Some_2 eb k) as [y Hy]; [lia|].
  rewrite (bind_ok _ _ _ _ _ (read_elem_ok _ _ _ _ _ Ha Hx)).
  rewrite (bind_ok _ _ _ _ _ (read_elem_ok _ _ _ _ _ Hb Hy)).
  rewrite Hx, Hy. reflexivity.
Qed.

Lemma AmountDims_is_equal_ok (h : heap) this other ea eb :
  h !! this = Some (AmountDims ea) ->
  h !! other = Some (AmountDims eb) ->
  length ea = length eb ->
  AmountDims_is_equal mode this other h = Ok (dims_equal ea eb) h.
Proof.
  intros Ha Hb Hlen. unfold AmountDims_is_equal, dims_equal.
  rewrite (bind_ok _ _ _ _ _ (assert_same_size_ok _ _ _ _ _ Ha Hb Hlen)).
  rewrite (bind_ok _ _ _ _ _ (elems_size_ok _ _ _ Ha)).
  erewrite bind_ok; cycle 1.
  { apply (for_range_return_scan equal_step) with (ea := ea) (eb := eb);
      [|lia|lia].
    intros i x y Hx Hy.
    rewrite (bind_ok _ _ _ _ _ (read_elem_ok _ _ _ _ _ Ha Hx)).
    rewrite (bind_ok _ _ _ _ _ (read_elem_ok _ _ _ _ _ Hb Hy)).
    unfold equal_step. destruct (negb (x =? y)); reflexivity. }
  rewrite !drop_0, take_ge, (take_ge eb) by lia.
  destruct (scan equal_step ea eb); reflexivity.
Qed.

(** The shared shape of [add], [sub] and [update_to_maxed]. *)
Lemma elementwise_ok (f : Capacity -> Capacity -> Capacity)
    (h : heap) this other ea eb :
  h !! this = Some (AmountDims ea) ->
  h !! other = Some (AmountDims eb) ->
  length ea = length eb ->
  (let* _ := assert_ mode (same_size this other) in
   let* n := elems_size this in
   for_range n 0 (fun i =>
     let* x := read_elem this i in
     let* y := read_elem other i in
     write_elem this i (f x y))) h
  = Ok tt (<[this := AmountDims (zip_with f ea eb)]> h).
Proof.
  intros Ha Hb Hlen.
  rewrite (bind_ok _ _ _ _ _ (assert_same_size_ok _ _ _ _ _ Ha Hb Hlen)).
  rewrite (bind_ok _ _ _ _ _ (elems_size_ok _ _ _ Ha)).
  rewrite <- (for_range_zip f this other h ea eb Ha Hb Hlen (length ea) 0)
    by reflexivity.
  rewrite take_0, drop_0. simpl. rewrite (insert_id _ _ _ Ha). reflexivity.
Qed.

Lemma AmountDims_add_ok (h : heap) this other ea eb :
  h !! this = Some (AmountDims ea) ->
  h !! other = Some (AmountDims eb) ->
  length ea = length eb ->
  AmountDims_add sg width mode this other h
  = Ok tt (<[this := AmountDims
                       (zip_with (fun x y => wrap sg width (x + y)) ea eb)]> h).
Proof. apply (elementwise_ok (fun x y => wrap sg width (x + y))). Qed.

Lemma AmountDims_sub_ok (h : heap) this other ea eb :
  h !! this = Some (AmountDims ea) ->
  h !! other = Some (AmountDims eb) ->
  length ea = length eb ->
  AmountDims_sub sg width mode this other h
  = Ok tt (<[this := AmountDims
                       (zip_with (fun x y => wrap sg width (x - y)) ea eb)]> h).
Proof. apply (elementwise_ok (fun x y => wrap sg width (x - y))). Qed.

Lemma AmountDims_update_to_maxed_ok (h : heap) this other ea eb :
  h !! this = Some (AmountDims ea) ->
  h !! other = Some (AmountDims eb) ->
  length ea = length eb ->
  AmountDims_update_to_maxed mode this other h
  = Ok tt (<[this := AmountDims (zip_with std_max ea eb)]> h).
Proof. apply (elementwise_ok std_max). Qed.

Lemma AmountDims_set_zero_ok (h : heap) this ea :
  h !! this = Some (AmountDims ea) ->
  AmountDims_set_zero this h
  = Ok tt (<[this := AmountDims (replicate (length ea) 0)]> h).
Proof.
  intros Ha. unfold AmountDims_set_zero.
  rewrite (bind_ok _ _ _ _ _ (elems_size_ok _ _ _ Ha)).
  rewrite <- (for_range_fill this 0 h ea Ha (length ea) 0) by reflexivity.
  rewrite drop_0. simpl. rewrite (insert_id _ _ _ Ha). reflexivity.
Qed.

End Members.

(** ** The virtual calls and the wrapper *)

Section Wrapper.

Variable sg : signedness.
Variable width : positive.
Variable mode : build.

Local Abbreviation add_cap := (fun x y : Capacity => wrap sg width (x + y)).
Local Abbreviation sub_cap := (fun x y : Capacity => wrap sg width (x - y)).

Ltac dispatch Ha Hs :=
  rewrite (bind_ok _ _ _ _ _ (deref_ok _ _ _ Ha));
  match type of Ha with
  | _ = Some ?o =>
      match type of Hs with
      | same_shape _ ?o' =>
          destruct o, o'; simpl in Hs; try contradiction; cbv iota
      end
  end.

Lemma AmountImpl_is_less_ok (h : heap) this other o o' :
  h !! this = Some o -> h !! other = Some o' -> same_shape o o' ->
  AmountImpl_is_less mode this other h = Ok (impl_less o o') h.
Proof.
  intros Ha Hb Hs. unfold AmountImpl_is_less. dispatch Ha Hs.
  - apply AmountDims_is_less_ok; assumption.
  - reflexivity.
Qed.

Lemma AmountImpl_is_equal_ok (h : heap) this other o o' :
  h !! this = Some o -> h !! other = Some o' -> same_shape o o' ->
  AmountImpl_is_equal mode this other h = Ok (impl_equal o o') h.
Proof.
  intros Ha Hb Hs. unfold AmountImpl_is_equal. dispatch Ha Hs.
  - apply AmountDims_is_equal_ok; assumption.
  - reflexivity.
Qed.

Lemma AmountImpl_add_ok (h : heap) this other o o' :
  h !! this = Some o -> h !! other = Some o' -> same_shape o o' ->
  AmountImpl_add sg width mode this other h
  = Ok tt (<[this := combined add_cap o o']> h).
Proof.
  intros Ha Hb Hs. unfold AmountImpl_add. dispatch Ha Hs.
  - apply AmountDims_add_ok; assumption.
  - simpl. rewrite (insert_id _ _ _ Ha). reflexivity.
Qed.

Lemma AmountImpl_sub_ok (h : heap) this other o o' :
  h !! this = Some o -> h !! other = Some o' -> same_shape o o' ->
  AmountImpl_sub sg width mode this other h
  = Ok tt (<[this := combined sub_cap o o']> h).
Proof.
  intros Ha Hb Hs. unfold AmountImpl_sub. dispatch Ha Hs.
  - apply AmountDims_sub_ok; assumption.
  - simpl. rewrite (insert_id _ _ _ Ha). reflexivity.
Qed.

Lemma AmountImpl_update_to_maxed_ok (h : heap) this other o o' :
  h !! this = Some o -> h !! other = Some o' -> same_shape o o' ->
  AmountImpl_update_to_maxed mode this other h
  = Ok tt (<[this := combined std_max o o']> h).
Proof.
  intros Ha Hb Hs. unfold AmountImpl_update_to_maxed. dispatch Ha Hs.
  - apply AmountDims_update_to_maxed_ok; assumption.
  - simpl. rewrite (insert_id _ _ _ Ha). reflexivity.
Qed.

Lemma AmountImpl_set_zero_ok (h : heap) this o :
  h !! this = Some o ->
  AmountImpl_set_zero this h = Ok tt (<[this := zeroed o]> h).
Proof.
  intros Ha. unfold AmountImpl_set_zero.
  rewrite (bind_ok _ _ _ _ _ (deref_ok _ _ _ Ha)). destruct o.
  - apply AmountDims_set_zero_ok; assumption.
  - simpl. rewrite (insert_id _ _ _ Ha). reflexivity.
Qed.

Lemma AmountImpl_clone_ok (h : heap) this o :
  h !! this = Some o ->
  AmountImpl_clone this h = Ok (fresh (dom h)) (<[fresh (dom h) := o]> h).
Proof.
  intros Ha. unfold AmountImpl_clone.
  rewrite (bind_ok _ _ _ _ _ (deref_ok _ _ _ Ha)). destruct o.
  - unfold AmountDims_clone.
    rewrite (bind_ok _ _ _ _ _ (elems_of_ok _ _ _ Ha)). reflexivity.
  - reflexivity.
Qed.

(** The copy constructor: a new object, equal to the source's, at an
    address the store did not have. *)
Lemma Amount_copy_ok (h : heap) (a : Amount) o :
  h !! m_impl a = Some o ->
  Amount_copy a h
  = Ok {| m_impl := fresh (dom h) |} (<[fresh (dom h) := o]> h).
Proof.
  intros Ha. unfold Amount_copy.
  rewrite (bind_ok _ _ _ _ _ (AmountImpl_clone_ok _ _ _ Ha)). reflexivity.
Qed.

Lemma operator_plus_ok (h : heap) (a b : Amount) o o' :
  h !! m_impl a = Some o -> h !! m_impl b = Some o' -> same_shape o o' ->
  operator_plus sg width mode a b h
  = Ok {| m_impl := fresh (dom h) |}
       (<[fresh (dom h) := combined add_cap o o']> h).
Proof.
  intros Ha Hb Hs. unfold operator_plus, Amount_operator_plus_assign.
  rewrite (bind_ok _ _ _ _ _ (Amount_copy_ok _ _ _ Ha)).
  erewrite (bind_ok (bind _ _)); cycle 1.
  { erewrite (bind_ok (AmountImpl_add _ _ _ _ _)); [reflexivity|].
    apply AmountImpl_add_ok with (o := o) (o' := o'); simpl.
    - apply lookup_insert_eq.
    - rewrite lookup_insert_ne; [exact Hb|]. apply not_eq_sym, (fresh_ne _ _ _ Hb).
    - exact Hs. }
  rewrite insert_insert_eq. reflexivity.
Qed.

Lemma operator_minus_ok (h : heap) (a b : Amount) o o' :
  h !! m_impl a = Some o -> h !! m_impl b = Some o' -> same_shape o o' ->
  operator_minus sg width mode a b h
  = Ok {| m_impl := fresh (dom h) |}
       (<[fresh (dom h) := combined sub_cap o o']> h).
Proof.
  intros Ha Hb Hs. unfold operator_minus, Amount_operator_minus_assign.
  rewrite (bind_ok _ _ _ _ _ (Amount_copy_ok _ _ _ Ha)).
  erewrite (bind_ok (bind _ _)); cycle 1.
  { erewrite (bind_ok (AmountImpl_sub _ _ _ _ _)); [reflexivity|].
    apply AmountImpl_sub_ok with (o := o) (o' := o'); simpl.
    - apply lookup_insert_eq.
    - rewrite lookup_insert_ne; [exact Hb|]. apply not_eq_sym, (fresh_ne _ _ _ Hb).
    - exact Hs. }
  rewrite insert_insert_eq. reflexivity.
Qed.

Lemma Amount_get_zero_ok (h : heap) (a : Amount) o :
  h !! m_impl a = Some o ->
  Amount_get_zero a h
  = Ok {| m_impl := fresh (dom h) |} (<[fresh (dom h) := zeroed o]> h).
Proof.
  intros Ha. unfold Amount_get_zero.
  rewrite (bind_ok _ _ _ _ _ (Amount_copy_ok _ _ _ Ha)).
  erewrite (bind_ok (AmountImpl_set_zero _)); cycle 1.
  { apply AmountImpl_set_zero_ok with (o := o). apply lookup_insert_eq. }
  rewrite insert_insert_eq. reflexivity.
Qed.

End Wrapper.

(** ** The comparisons, on the contents *)

Lemma less_step_same (x : Z) : less_step x x = None.
Proof.
  unfold less_step. rewrite Z.ltb_irrefl.
  destruct (Z.gtb_spec x x); [lia | reflexivity].
Qed.

Lemma scan_less_same (a : list Z) : scan less_step a a = None.
Proof.
  induction a as [|x a IH]; simpl; [reflexivity|].
  rewrite less_step_same. exact IH.
Qed.

(** The first index where the sequences differ decides the scan. *)
Lemma scan_less_first (a b : list Z) (i : nat) (x y : Z) :
  a !! i = Some x -> b !! i = Some y -> take i a = take i b ->
  (x < y -> scan less_step a b = Some true) /\
  (x > y -> scan less_step a b = Some false).
Proof.
  revert a b. induction i as [|i IH]; intros [|x0 a] [|y0 b] Hx Hy Hpre;
    try discriminate; simpl in *.
  - injection Hx as ->. injection Hy as ->. unfold less_step.
    destruct (Z.ltb_spec x y); destruct (Z.gtb_spec x y); split; intros;
      (reflexivity || lia).
  - injection Hpre as -> Hpre. rewrite less_step_same. apply IH; assumption.
Qed.

Lemma dims_less_cons (x y : Z) (a b : list Z) :
  length a = length b ->
  dims_less (x :: a) (y :: b)
  = match a with
    | [] => x <? y
    | _ :: _ =>
        match less_step x y with
        | Some r => r
        | None => dims_less a b
        end
    end.
Proof.
  intros Hlen. destruct a as [|x1 a], b as [|y1 b]; try discriminate.
  - reflexivity.
  - unfold dims_less. simpl. destruct (less_step x y); reflexivity.
Qed.

Lemma dims_equal_cons (x y : Z) (a b : list Z) :
  dims_equal (x :: a) (y :: b) = if x =? y then dims_equal a b else false.
Proof.
  unfold dims_equal, equal_step. simpl. destruct (x =? y); reflexivity.
Qed.

Lemma dims_equal_refl (a : list Z) : dims_equal a a = true.
Proof.
  induction a as [|x a IH]; [reflexivity|].
  rewrite dims_equal_cons, Z.eqb_refl. exact IH.
Qed.

(** [is_equal] answers true exactly when all corresponding dimensions are
    equal. *)
Lemma dims_equal_iff (a b : list Z) :
  length a = length b -> dims_equal a b = true <-> a = b.
Proof.
  revert b. induction a as [|x a IH]; intros [|y b] Hlen; try discriminate.
  - split; reflexivity.
  - rewrite dims_equal_cons. injection Hlen as Hlen.
    destruct (Z.eqb_spec x y) as [->|Hne].
    + rewrite (IH b Hlen). split; [intros ->; reflexivity | congruence].
    + split; [discriminate | congruence].
Qed.

Lemma dims_less_first (a b : list Z) (i : nat) (x y : Z) :
  (i < length a - 1)%nat ->
  take i a = take i b -> a !! i = Some x -> b !! i = Some y ->
  (x < y -> dims_less a b = true) /\ (x > y -> dims_less a b = false).
Proof.
  intros Hi Hpre Hx Hy. unfold dims_less.
  destruct (length a) as [|k] eqn:Hn; [lia|].
  assert (Hik : (i < k)%nat) by lia.
  destruct (scan_less_first (take k a) (take k b) i x y) as [Hlt Hgt].
  - rewrite lookup_take_lt by lia. exact Hx.
  - rewrite lookup_take_lt by lia. exact Hy.
  - rewrite !take_take. replace (i `min` k)%nat with i by lia. exact Hpre.
  - split; intros H; [rewrite (Hlt H) | rewrite (Hgt H)]; reflexivity.
Qed.

Lemma dims_less_last (a b : list Z) (x y : Z) :
  take (length a - 1) a = take (length a - 1) b ->
  a !! (length a - 1)%nat = Some x -> b !! (length a - 1)%nat = Some y ->
  dims_less a b = (x <? y).
Proof.
  intros Hpre Hx Hy. unfold dims_less.
  destruct (length a) as [|k] eqn:Hn.
  - apply lookup_lt_Some in Hx. lia.
  - replace (S k - 1)%nat with k in * by lia.
    rewrite Hpre, scan_less_same, Hx, Hy. reflexivity.
Qed.

Lemma dims_trichotomy (a b : list Z) :
  length a = length b ->
  exactly_one (dims_less a b) (dims_less b a) (dims_equal a b).
Proof.
  revert b. induction a as [|x a IH]; intros [|y b] Hlen; try discriminate.
  - right; right. repeat split.
  - injection Hlen as Hlen.
    rewrite (dims_less_cons x y a b Hlen), (dims_less_cons y x b a (eq_sym Hlen)).
    rewrite dims_equal_cons. specialize (IH b Hlen).
    unfold less_step, exactly_one in *.
    destruct a as [|x1 a], b as [|y1 b]; try discriminate;
      destruct (Z.ltb_spec x y); destruct (Z.ltb_spec y x);
      destruct (Z.gtb_spec x y); destruct (Z.gtb_spec y x);
      destruct (Z.eqb_spec x y); try lia; auto.
Qed.

(** ** The elementwise operations, on the contents *)

Section Contents.

Variable sg : signedness.
Variable width : positive.

Local Abbreviation add_cap := (fun x y : Capacity => wrap sg width (x + y)).
Local Abbreviation sub_cap := (fun x y : Capacity => wrap sg width (x - y)).

Lemma zip_add_sub (ea eb : list Z) :
  Forall (in_range sg width) ea -> length ea = length eb ->
  zip_with sub_cap (zip_with add_cap ea eb) eb = ea.
Proof.
  intros Hr. revert eb. induction Hr as [|x ea Hx Hr IH]; intros [|y eb] Hlen;
    try discriminate; simpl.
  - reflexivity.
  - rewrite (add_then_sub sg width x y Hx). f_equal. apply IH.
    injection Hlen as Hlen. exact Hlen.
Qed.

Lemma zip_zero_add (ea : list Z) :
  Forall (in_range sg width) ea ->
  zip_with add_cap (replicate (length ea) 0) ea = ea.
Proof.
  induction 1 as [|x ea Hx Hr IH]; simpl; [reflexivity|].
  rewrite IH. f_equal. exact Hx.
Qed.

Lemma zip_sub_self (ea : list Z) :
  zip_with sub_cap ea ea = replicate (length ea) 0.
Proof.
  induction ea as [|x ea IH]; simpl; [reflexivity|].
  rewrite IH, sub_self. reflexivity.
Qed.

End Contents.

Lemma zip_max_self (ea : list Z) : zip_with std_max ea ea = ea.
Proof.
  induction ea as [|x ea IH]; simpl; [reflexivity|].
  rewrite IH, std_max_self. reflexivity.
Qed.

Lemma zip_max_lookup (ea eb : list Z) (i : nat) (x y : Z) :
  ea !! i = Some x -> eb !! i = Some y ->
  zip_with std_max ea eb !! i = Some (Z.max x y).
Proof.
  intros Hx Hy. rewrite lookup_zip_with, Hx. simpl. rewrite Hy. simpl.
  rewrite std_max_is_max. reflexivity.
Qed.

Lemma same_shape_refl (o : AmountImpl) : same_shape o o.
Proof. destruct o; simpl; auto. Qed.

Lemma same_shape_combined (f : Z -> Z -> Z) (o o' : AmountImpl) :
  same_shape o o' -> same_shape (combined f o o') o'.
Proof.
  destruct o, o'; simpl; auto. intros Hlen. rewrite length_zip_with. lia.
Qed.

Lemma same_shape_zeroed (o : AmountImpl) : same_shape (zeroed o) o.
Proof. destruct o; simpl; auto. apply length_replicate. Qed.

Lemma impl_equal_refl (o : AmountImpl) : impl_equal o o = true.
Proof. destruct o; simpl; auto using dims_equal_refl. Qed.

Lemma same_shape_trans (o1 o2 o3 : AmountImpl) :
  same_shape o1 o2 -> same_shape o2 o3 -> same_shape o1 o3.
Proof. destruct o1, o2, o3; simpl; try tauto; congruence. Qed.

(** ** No member function changes the length of a sequence

    Every piece of code of the classes, whatever the build and whatever
    the operands, modifies the object [this] in place: this is the
    invariant that the length of an [AmountDims] is fixed when it is
    constructed. *)

Section InPlace.

Variable this : loc.

Lemma in_place_refl (h : heap) : in_place this h h.
Proof.
  split; [reflexivity|]. intros o Ho. exists o.
  split; [exact Ho | apply same_shape_refl].
Qed.

Lemma in_place_trans (h1 h2 h3 : heap) :
  in_place this h1 h2 -> in_place this h2 h3 -> in_place this h1 h3.
Proof.
  intros [F1 S1] [F2 S2]. split.
  - intros l Hl. rewrite (F2 l Hl). apply F1, Hl.
  - intros o Ho. destruct (S1 o Ho) as (o2 & Ho2 & Hs2).
    destruct (S2 o2 Ho2) as (o3 & Ho3 & Hs3). exists o3.
    split; [exact Ho3|]. eapply same_shape_trans; eassumption.
Qed.

Lemma mip_ret {A} (a : A) : modifies_in_place this (ret a).
Proof. intros h. apply in_place_refl. Qed.

Lemma mip_abort {A} : modifies_in_place this (@abort A).
Proof. intros h. apply in_place_refl. Qed.

Lemma mip_undefined {A} : modifies_in_place this (@undefined A).
Proof. intros h. exact I. Qed.

Lemma mip_bind {A B} (m : M A) (k : A -> M B) :
  modifies_in_place this m -> (forall a, modifies_in_place this (k a)) ->
  modifies_in_place this (bind m k).
Proof.
  intros Hm Hk h. unfold bind. specialize (Hm h).
  destruct (m h) as [a h1|h1|]; [|exact Hm|exact I].
  specialize (Hk a h1).
  destruct (k a h1); try exact I; eapply in_place_trans; eassumption.
Qed.

Lemma mip_deref (l : loc) : modifies_in_place this (deref l).
Proof.
  intros h. unfold deref. destruct (h !! l); [apply in_place_refl | exact I].
Qed.

Lemma mip_elems_of (l : loc) : modifies_in_place this (elems_of l).
Proof.
  apply mip_bind; [apply mip_deref|].
  intros [e|]; [apply mip_ret | apply mip_undefined].
Qed.

Lemma mip_elems_size (l : loc) : modifies_in_place this (elems_size l).
Proof. apply mip_bind; [apply mip_elems_of|]. intros e. apply mip_ret. Qed.

Lemma mip_read_elem (l : loc) (i : nat) :
  modifies_in_place this (read_elem l i).
Proof.
  apply mip_bind; [apply mip_elems_of|]. intros e.
  destruct (e !! i); [apply mip_ret | apply mip_undefined].
Qed.

Lemma mip_write_elem (i : nat) (v : Capacity) :
  modifies_in_place this (write_elem this i v).
Proof.
  intros h. unfold write_elem, bind, elems_of, bind, deref.
  destruct (h !! this) as [[e|]|] eqn:Hthis; simpl; try exact I.
  destruct (decide (i < length e)%nat) as [Hi|Hi]; [|exact I]. split.
  - intros l Hl. apply lookup_insert_ne. congruence.
  - intros o Ho. rewrite Hthis in Ho. injection Ho as <-. eexists.
    split; [apply lookup_insert_eq|]. simpl. rewrite length_insert.
    reflexivity.
Qed.

Lemma mip_for_range (n : nat) :
  forall i body, (forall j, modifies_in_place this (body j)) ->
                 modifies_in_place this (for_range n i body).
Proof.
  induction n as [|n IH]; intros i body Hb; simpl.
  - apply mip_ret.
  - apply mip_bind; [apply Hb|]. intros _. apply IH, Hb.
Qed.

Lemma mip_for_range_return {R} (n : nat) :
  forall i (body : nat -> M (option R)),
    (forall j, modifies_in_place this (body j)) ->
    modifies_in_place this (for_range_return n i body).
Proof.
  induction n as [|n IH]; intros i body Hb; simpl.
  - apply mip_ret.
  - apply mip_bind; [apply Hb|].
    intros [r|]; [apply mip_ret | apply IH, Hb].
Qed.

Lemma mip_same_size (l l' : loc) : modifies_in_place this (same_size l l').
Proof.
  apply mip_bind; [apply mip_elems_size|]. intros n.
  apply mip_bind; [apply mip_elems_size|]. intros n'. apply mip_ret.
Qed.

Lemma mip_assert (mode : build) (c : M bool) :
  modifies_in_place this c -> modifies_in_place this (assert_ mode c).
Proof.
  intros Hc. unfold assert_. destruct mode; [|apply mip_ret].
  apply mip_bind; [exact Hc|]. intros [|]; [apply mip_ret | apply mip_abort].
Qed.

Ltac in_place_step :=
  first
    [ apply mip_ret | apply mip_abort | apply mip_undefined
    | apply mip_assert | apply mip_same_size | apply mip_elems_size
    | apply mip_read_elem | apply mip_write_elem
    | apply mip_for_range; intros ?
    | apply mip_for_range_return; intros ?
    | apply mip_bind; [|intros ?]
    | match goal with
      | |- modifies_in_place _ (if ?b then _ else _) => destruct b
      | |- modifies_in_place _ (match ?r with _ => _ end) => destruct r
      end ].

Lemma AmountDims_is_less_in_place (mode : build) (other : loc) :
  modifies_in_place this (AmountDims_is_less mode this other).
Proof. unfold AmountDims_is_less. cbv zeta. repeat in_place_step. Qed.

Lemma AmountDims_is_equal_in_place (mode : build) (other : loc) :
  modifies_in_place this (AmountDims_is_equal mode this other).
Proof. unfold AmountDims_is_equal. repeat in_place_step. Qed.

Lemma AmountDims_add_in_place sg width (mode : build) (other : loc) :
  modifies_in_place this (AmountDims_add sg width mode this other).
Proof. unfold AmountDims_add. repeat in_place_step. Qed.

Lemma AmountDims_sub_in_place sg width (mode : build) (other : loc) :
  modifies_in_place this (AmountDims_sub sg width mode this other).
Proof. unfold AmountDims_sub. repeat in_place_step. Qed.

Lemma AmountDims_update_to_maxed_in_place (mode : build) (other : loc) :
  modifies_in_place this (AmountDims_update_to_maxed mode this other).
Proof. unfold AmountDims_update_to_maxed. repeat in_place_step. Qed.

Lemma AmountDims_set_zero_in_place :
  modifies_in_place this (AmountDims_set_zero this).
Proof. unfold AmountDims_set_zero. repeat in_place_step. Qed.

(** What the invariant says of two [AmountDims] operands. *)
Lemma in_place_lengths_kept (other : loc) (h h' : heap)
    (ea eb : list Capacity) :
  h !! this = Some (AmountDims ea) ->
  h !! other = Some (AmountDims eb) ->
  in_place this h h' ->
  lengths_kept h' this other (length ea) (length eb).
Proof.
  intros Ha Hb [F S].
  assert (Hthis : exists e, h' !! this = Some (AmountDims e)
                            /\ length e = length ea).
  { destruct (S _ Ha) as ([e|] & He & Hs); simpl in Hs; [|contradiction].
    exists e. split; [exact He | symmetry; exact Hs]. }
  split; [exact Hthis|].
  destruct (decide (other = this)) as [->|Hne].
  - rewrite Ha in Hb. injection Hb as <-. exact Hthis.
  - exists eb. rewrite (F other Hne). split; [exact Hb | reflexivity].
Qed.

End InPlace.

(** ** The properties of the specification *)

Section Properties.

Variable sg : signedness.
Variable width : positive.
Variable mode : build.

(** C1.  [is_less] on two [AmountDims] of the same length [n] returns, and
    leaves the store as it was.  Its answer is lexicographic: at the first
    index [i < n - 1] where the two sequences differ it is true when
    [a[i] < b[i]] and false when [a[i] > b[i]]; when the dimensions
    [0..n-2] are all equal it is [a[n-1] < b[n-1]]; and for length [0] it
    is false. *)
Theorem is_less_lexicographic (h : heap) (this other : loc)
    (ea eb : list Capacity) :
  h !! this = Some (AmountDims ea) ->
  h !! other = Some (AmountDims eb) ->
  length ea = length eb ->
  exists r : bool,
    AmountDims_is_less mode this other h = Ok r h /\
    (length ea = 0%nat -> r = false) /\
    (forall i x y,
        (i < length ea - 1)%nat -> take i ea = take i eb ->
        ea !! i = Some x -> eb !! i = Some y ->
        (x < y -> r = true) /\ (x > y -> r = false)) /\
    (forall x y,
        take (length ea - 1) ea = take (length ea - 1) eb ->
        ea !! (length ea - 1)%nat = Some x ->
        eb !! (length ea - 1)%nat = Some y ->
        r = (x <? y)).
Proof.
  intros Ha Hb Hlen. exists (dims_less ea eb). split; [|split; [|split]].
  - apply AmountDims_is_less_ok; assumption.
  - intros Hn. destruct ea; [reflexivity | discriminate].
  - intros i x y Hi Hpre Hx Hy. apply (dims_less_first ea eb i); assumption.
  - intros x y Hpre Hx Hy. apply dims_less_last; assumption.
Qed.

(** C2.  For two amounts of the same shape, [a <= b] is true if and only
    if [is_less(a, b)] is true or [is_equal(a, b)] is true. *)
Theorem le_iff_less_or_equal (h : heap) (a b : Amount) (o o' : AmountImpl) :
  h !! m_impl a = Some o ->
  h !! m_impl b = Some o' ->
  same_shape o o' ->
  exists l e r : bool,
    AmountImpl_is_less mode (m_impl a) (m_impl b) h = Ok l h /\
    AmountImpl_is_equal mode (m_impl a) (m_impl b) h = Ok e h /\
    Amount_operator_le mode a b h = Ok r h /\
    (r = true <-> l = true \/ e = true).
Proof.
  intros Ha Hb Hs.
  pose proof (AmountImpl_is_less_ok mode h _ _ o o' Ha Hb Hs) as Hl.
  pose proof (AmountImpl_is_equal_ok mode h _ _ o o' Ha Hb Hs) as He.
  exists (impl_less o o'), (impl_equal o o'),
    (impl_less o o' || impl_equal o o').
  split; [exact Hl|]. split; [exact He|]. split.
  - unfold Amount_operator_le. rewrite (bind_ok _ _ _ _ _ Hl).
    destruct (impl_less o o'); [reflexivity | exact He].
  - rewrite orb_true_iff. reflexivity.
Qed.

(** C9.  On two [AmountDims] of the same length exactly one of [a << b],
    [b << a] and [a == b] is true. *)
Theorem less_equal_trichotomy (h : heap) (a b : Amount)
    (ea eb : list Capacity) :
  h !! m_impl a = Some (AmountDims ea) ->
  h !! m_impl b = Some (AmountDims eb) ->
  length ea = length eb ->
  exists l g e : bool,
    Amount_operator_shl mode a b h = Ok l h /\
    Amount_operator_shl mode b a h = Ok g h /\
    Amount_operator_eq mode a b h = Ok e h /\
    exactly_one l g e.
Proof.
  intros Ha Hb Hlen.
  exists (dims_less ea eb), (dims_less eb ea), (dims_equal ea eb).
  split; [|split; [|split]].
  - apply (AmountImpl_is_less_ok mode h _ _ _ _ Ha Hb). exact Hlen.
  - apply (AmountImpl_is_less_ok mode h _ _ _ _ Hb Ha). symmetry. exact Hlen.
  - apply (AmountImpl_is_equal_ok mode h _ _ _ _ Ha Hb). exact Hlen.
  - apply dims_trichotomy. exact Hlen.
Qed.

Local Abbreviation add_cap := (fun x y : Capacity => wrap sg width (x + y)).
Local Abbreviation sub_cap := (fun x y : Capacity => wrap sg width (x - y)).

(** C4.  For two amounts [a] and [b] of the same shape, [a + b] and then
    [(a + b) - b] return, and [(a + b) - b == a] is true.  Each of the two
    free operators returns a new wrapper: its object is at an address the
    store did not have, it is what [+=] (respectively [-=]) makes in place
    of a copy of the object of the left operand, and every object the
    store had before, the two operands among them, is unchanged. *)
Theorem add_sub_round_trip (h : heap) (a b : Amount) (o o' : AmountImpl) :
  h !! m_impl a = Some o ->
  h !! m_impl b = Some o' ->
  same_shape o o' ->
  well_formed sg width o ->
  exists (s : Amount) (h1 : heap) (d : Amount) (h2 : heap) (os : AmountImpl),
    operator_plus sg width mode a b h = Ok s h1 /\
    operator_minus sg width mode s b h1 = Ok d h2 /\
    Amount_operator_eq mode d a h2 = Ok true h2 /\
    (h !! m_impl s = None /\
     Amount_copy a h = Ok s (<[m_impl s := o]> h) /\
     Amount_operator_plus_assign sg width mode s b (<[m_impl s := o]> h)
     = Ok s h1 /\
     forall l, l <> m_impl s -> h1 !! l = h !! l) /\
    (h1 !! m_impl s = Some os /\
     h1 !! m_impl d = None /\
     Amount_copy s h1 = Ok d (<[m_impl d := os]> h1) /\
     Amount_operator_minus_assign sg width mode d b (<[m_impl d := os]> h1)
     = Ok d h2 /\
     forall l, l <> m_impl d -> h2 !! l = h1 !! l).
Proof.
  intros Ha Hb Hs Hwf.
  set (f1 := fresh (dom h)).
  set (h1 := <[f1 := combined add_cap o o']> h).
  set (f2 := fresh (dom h1)).
  set (os := combined add_cap o o').
  set (h2 := <[f2 := combined sub_cap os o']> h1).
  assert (Hs1 : h1 !! f1 = Some os) by apply lookup_insert_eq.
  assert (Hb1 : h1 !! m_impl b = Some o') by (apply lookup_alloc_old, Hb).
  assert (Ha1 : h1 !! m_impl a = Some o) by (apply lookup_alloc_old, Ha).
  assert (Hss : same_shape os o') by (apply same_shape_combined, Hs).
  assert (Hback : combined sub_cap os o' = o).
  { unfold os. destruct o as [ea|], o' as [eb|]; simpl in *;
      try contradiction; [|reflexivity].
    f_equal. apply zip_add_sub; assumption. }
  exists {| m_impl := f1 |}, h1, {| m_impl := f2 |}, h2, os.
  split; [apply operator_plus_ok; assumption|].
  split; [apply (operator_minus_ok sg width mode h1 _ b os o'); assumption|].
  split.
  { unfold Amount_operator_eq. simpl.
    rewrite (AmountImpl_is_equal_ok mode h2 f2 (m_impl a) o o).
    - rewrite impl_equal_refl. reflexivity.
    - unfold h2. rewrite Hback. apply lookup_insert_eq.
    - apply lookup_alloc_old, Ha1.
    - apply same_shape_refl. }
  split; [split; [|split; [|split]] | split; [|split; [|split; [|split]]]];
    simpl.
  - apply fresh_lookup.
  - apply Amount_copy_ok, Ha.
  - unfold Amount_operator_plus_assign. simpl.
    rewrite (bind_ok _ _ _ _ _
               (AmountImpl_add_ok sg width mode _ f1 (m_impl b) o o'
                  (lookup_insert_eq _ _ _) (lookup_alloc_old _ _ _ _ Hb) Hs)).
    unfold h1. rewrite insert_insert_eq. reflexivity.
  - intros l Hl. apply lookup_insert_ne. congruence.
  - exact Hs1.
  - apply fresh_lookup.
  - apply (Amount_copy_ok h1 {| m_impl := f1 |}), Hs1.
  - unfold Amount_operator_minus_assign. simpl.
    rewrite (bind_ok _ _ _ _ _
               (AmountImpl_sub_ok sg width mode _ f2 (m_impl b) os o'
                  (lookup_insert_eq _ _ _) (lookup_alloc_old _ _ _ _ Hb1) Hss)).
    unfold h2. rewrite insert_insert_eq. reflexivity.
  - intros l Hl. apply lookup_insert_ne. congruence.
Qed.

(** C5.  [a.get_zero()] returns a new wrapper whose object has the class
    of the object of [a] and, for [AmountDims], as many dimensions, every
    one of them zero; no object the store had, that of [a] among them, is
    changed; and [a.get_zero() + a == a] is true. *)
Theorem get_zero_identity (h : heap) (a : Amount) (o : AmountImpl) :
  h !! m_impl a = Some o ->
  well_formed sg width o ->
  exists (z : Amount) (h1 : heap) (s : Amount) (h2 : heap),
    Amount_get_zero a h = Ok z h1 /\
    h !! m_impl z = None /\
    h1 !! m_impl z
    = Some match o with
           | AmountDims e => AmountDims (replicate (length e) 0)
           | AmountEmpty => AmountEmpty
           end /\
    (forall l, l <> m_impl z -> h1 !! l = h !! l) /\
    operator_plus sg width mode z a h1 = Ok s h2 /\
    Amount_operator_eq mode s a h2 = Ok true h2.
Proof.
  intros Ha Hwf.
  set (f1 := fresh (dom h)).
  set (h1 := <[f1 := zeroed o]> h).
  set (f2 := fresh (dom h1)).
  set (h2 := <[f2 := combined add_cap (zeroed o) o]> h1).
  assert (Hz1 : h1 !! f1 = Some (zeroed o)) by apply lookup_insert_eq.
  assert (Ha1 : h1 !! m_impl a = Some o) by (apply lookup_alloc_old, Ha).
  assert (Hsum : combined add_cap (zeroed o) o = o).
  { destruct o as [ea|]; simpl in *; [|reflexivity].
    f_equal. apply zip_zero_add. exact Hwf. }
  exists {| m_impl := f1 |}, h1, {| m_impl := f2 |}, h2.
  split; [apply Amount_get_zero_ok, Ha|].
  split; [apply fresh_lookup|].
  split; [exact Hz1|].
  split; [intros l Hl; apply lookup_insert_ne; simpl in Hl; congruence|].
  split.
  - apply (operator_plus_ok sg width mode h1 {| m_impl := f1 |} a);
      [exact Hz1 | exact Ha1 | apply same_shape_zeroed].
  - unfold Amount_operator_eq. simpl.
    rewrite (AmountImpl_is_equal_ok mode h2 f2 (m_impl a) o o).
    + rewrite impl_equal_refl. reflexivity.
    + unfold h2. rewrite Hsum. apply lookup_insert_eq.
    + apply lookup_alloc_old, Ha1.
    + apply same_shape_refl.
Qed.

(** C6.  [a.update_to_maxed(a)] returns and leaves the store, and so [a],
    as it was.  For two [AmountDims] of the same length,
    [a.update_to_maxed(b)] returns and changes the object of [a] only:
    it keeps its length, and its dimension [i] becomes the maximum of the
    dimensions [i] the two objects had before the call. *)
Theorem update_to_maxed_max :
  (forall (h : heap) (a : Amount) (o : AmountImpl),
      h !! m_impl a = Some o ->
      Amount_update_to_maxed mode a a h = Ok tt h) /\
  (forall (h : heap) (a b : Amount) (ea eb : list Capacity),
      h !! m_impl a = Some (AmountDims ea) ->
      h !! m_impl b = Some (AmountDims eb) ->
      length ea = length eb ->
      exists r : list Capacity,
        Amount_update_to_maxed mode a b h
        = Ok tt (<[m_impl a := AmountDims r]> h) /\
        length r = length ea /\
        forall i x y, ea !! i = Some x -> eb !! i = Some y ->
                      r !! i = Some (Z.max x y)).
Proof.
  split.
  - intros h a o Ha. unfold Amount_update_to_maxed.
    rewrite (AmountImpl_update_to_maxed_ok mode h _ _ o o Ha Ha
               (same_shape_refl o)).
    f_equal. apply insert_id. rewrite Ha. f_equal.
    destruct o; simpl; [|reflexivity]. f_equal. symmetry. apply zip_max_self.
  - intros h a b ea eb Ha Hb Hlen. exists (zip_with std_max ea eb).
    split; [|split].
    + apply (AmountImpl_update_to_maxed_ok mode h _ _ _ _ Ha Hb). exact Hlen.
    + rewrite length_zip_with. lia.
    + intros i x y. apply zip_max_lookup.
Qed.

(** C7.  The default constructor makes a wrapper of a new [AmountEmpty].
    For two wrappers of [AmountEmpty] objects, [a == b] is true, [a << b]
    and [b << a] are false, and [+=], [-=], [update_to_maxed] and
    [set_zero] return and leave the store as it was. *)
Theorem empty_closure :
  (forall h : heap,
      exists a : Amount,
        Amount_default h = Ok a (<[m_impl a := AmountEmpty]> h) /\
        h !! m_impl a = None) /\
  (forall (h : heap) (a b : Amount),
      h !! m_impl a = Some AmountEmpty ->
      h !! m_impl b = Some AmountEmpty ->
      Amount_operator_eq mode a b h = Ok true h /\
      Amount_operator_shl mode a b h = Ok false h /\
      Amount_operator_shl mode b a h = Ok false h /\
      Amount_operator_plus_assign sg width mode a b h = Ok a h /\
      Amount_operator_minus_assign sg width mode a b h = Ok a h /\
      Amount_update_to_maxed mode a b h = Ok tt h /\
      AmountImpl_set_zero (m_impl a) h = Ok tt h /\
      AmountImpl_set_zero (m_impl b) h = Ok tt h).
Proof.
  split.
  - intros h. exists {| m_impl := fresh (dom h) |}. split.
    + reflexivity.
    + apply fresh_lookup.
  - intros h a b Ha Hb.
    unfold Amount_operator_eq, Amount_operator_shl,
      Amount_operator_plus_assign, Amount_operator_minus_assign,
      Amount_update_to_maxed, AmountImpl_is_equal, AmountImpl_is_less,
      AmountImpl_add, AmountImpl_sub, AmountImpl_update_to_maxed,
      AmountImpl_set_zero, bind, deref.
    rewrite Ha, Hb. repeat split.
Qed.

(** C8.  An [Amount] made from [AmountDims(n)] wraps a new [AmountDims]
    of length [n] whose every value is zero; an [Amount] made from
    [AmountDims(elems)] wraps a new [AmountDims] whose content is the
    sequence [elems]. *)
Theorem construction :
  (forall (h : heap) (n : nat),
      exists (a : Amount) (e : list Capacity),
        (let* p := make_unique (AmountDims_of_size n) in Amount_of_impl p) h
        = Ok a (<[m_impl a := AmountDims e]> h) /\
        h !! m_impl a = None /\
        length e = n /\
        forall i, (i < n)%nat -> e !! i = Some 0) /\
  (forall (h : heap) (elems : list Capacity),
      exists a : Amount,
        (let* p := make_unique (AmountDims_of_elems elems) in
         Amount_of_impl p) h
        = Ok a (<[m_impl a := AmountDims elems]> h) /\
        h !! m_impl a = None).
Proof.
  split.
  - intros h n. exists {| m_impl := fresh (dom h) |}, (replicate n 0).
    split; [reflexivity|]. split; [apply fresh_lookup|].
    split; [apply length_replicate|].
    intros i Hi. apply lookup_replicate_2. exact Hi.
  - intros h elems. exists {| m_impl := fresh (dom h) |}.
    split; [reflexivity | apply fresh_lookup].
Qed.

(** C10.  For every amount [a], [a - a] and [a.get_zero()] return and
    [a - a == a.get_zero()] is true. *)
Theorem sub_self_is_zero (h : heap) (a : Amount) (o : AmountImpl) :
  h !! m_impl a = Some o ->
  exists (d : Amount) (h1 : heap) (z : Amount) (h2 : heap),
    operator_minus sg width mode a a h = Ok d h1 /\
    Amount_get_zero a h1 = Ok z h2 /\
    Amount_operator_eq mode d z h2 = Ok true h2.
Proof.
  intros Ha.
  set (f1 := fresh (dom h)).
  set (h1 := <[f1 := combined sub_cap o o]> h).
  set (f2 := fresh (dom h1)).
  set (h2 := <[f2 := zeroed o]> h1).
  assert (Hd1 : h1 !! f1 = Some (combined sub_cap o o))
    by apply lookup_insert_eq.
  assert (Ha1 : h1 !! m_impl a = Some o) by (apply lookup_alloc_old, Ha).
  assert (Hdiff : combined sub_cap o o = zeroed o).
  { destruct o as [ea|]; simpl; [|reflexivity]. f_equal. apply zip_sub_self. }
  exists {| m_impl := f1 |}, h1, {| m_impl := f2 |}, h2.
  split; [apply operator_minus_ok; [exact Ha | exact Ha | apply same_shape_refl]|].
  split; [apply Amount_get_zero_ok, Ha1|].
  unfold Amount_operator_eq. simpl.
  rewrite (AmountImpl_is_equal_ok mode h2 f1 f2 (zeroed o) (zeroed o)).
  - rewrite impl_equal_refl. reflexivity.
  - apply lookup_alloc_old. rewrite Hd1, Hdiff. reflexivity.
  - apply lookup_insert_eq.
  - apply same_shape_refl.
Qed.

End Properties.

(** ** Operands of different lengths *)

Section Mismatch.

Variable sg : signedness.
Variable width : positive.

Lemma assert_same_size_aborts (h : heap) this other ea eb :
  h !! this = Some (AmountDims ea) ->
  h !! other = Some (AmountDims eb) ->
  length ea <> length eb ->
  assert_ Debug (same_size this other) h = Aborted h.
Proof.
  intros Ha Hb Hne.
  assert (E : same_size this other h = Ok false h).
  { unfold same_size.
    rewrite (bind_ok _ _ _ _ _ (elems_size_ok _ _ _ Ha)).
    rewrite (bind_ok _ _ _ _ _ (elems_size_ok _ _ _ Hb)).
    unfold ret. f_equal. apply Nat.eqb_neq. exact Hne. }
  unfold assert_. rewrite (bind_ok _ _ _ _ _ E). reflexivity.
Qed.

(** C3.  In a build with assertions, each of [is_less], [is_equal], [add],
    [sub] and [update_to_maxed] on two [AmountDims] of different lengths
    ends in the failed assertion, with the store as it was before the
    call.  The assertion fails whatever code follows it, so before any
    loop over the elements is entered.  And in no build does one of the
    five return with an operand shortened or extended: if it returns,
    both objects have the lengths they had. *)
Theorem length_mismatch_aborts (h : heap) (this other : loc)
    (ea eb : list Capacity) :
  h !! this = Some (AmountDims ea) ->
  h !! other = Some (AmountDims eb) ->
  length ea <> length eb ->
  (AmountDims_is_less Debug this other h = Aborted h /\
   AmountDims_is_equal Debug this other h = Aborted h /\
   AmountDims_add sg width Debug this other h = Aborted h /\
   AmountDims_sub sg width Debug this other h = Aborted h /\
   AmountDims_update_to_maxed Debug this other h = Aborted h) /\
  (forall (A : Type) (k : M A),
      (let* _ := assert_ Debug (same_size this other) in k) h = Aborted h) /\
  (forall (mode : build) (h' : heap),
      (forall r, AmountDims_is_less mode this other h = Ok r h' ->
                 lengths_kept h' this other (length ea) (length eb)) /\
      (forall r, AmountDims_is_equal mode this other h = Ok r h' ->
                 lengths_kept h' this other (length ea) (length eb)) /\
      (forall r, AmountDims_add sg width mode this other h = Ok r h' ->
                 lengths_kept h' this other (length ea) (length eb)) /\
      (forall r, AmountDims_sub sg width mode this other h = Ok r h' ->
                 lengths_kept h' this other (length ea) (length eb)) /\
      (forall r, AmountDims_update_to_maxed mode this other h = Ok r h' ->
                 lengths_kept h' this other (length ea) (length eb))).
Proof.
  intros Ha Hb Hne.
  pose proof (assert_same_size_aborts h this other ea eb Ha Hb Hne) as E.
  split; [|split].
  - split; [|split; [|split; [|split]]]; apply bind_aborted; exact E.
  - intros A k. apply bind_aborted. exact E.
  - intros mode h'. split; [|split; [|split; [|split]]]; intros r Hr;
      apply (in_place_lengths_kept this other h h' ea eb Ha Hb).
    + pose proof (AmountDims_is_less_in_place this mode other h) as H.
      rewrite Hr in H. exact H.
    + pose proof (AmountDims_is_equal_in_place this mode other h) as H.
      rewrite Hr in H. exact H.
    + pose proof (AmountDims_add_in_place this sg width mode other h) as H.
      rewrite Hr in H. exact H.
    + pose proof (AmountDims_sub_in_place this sg width mode other h) as H.
      rewrite Hr in H. exact H.
    + pose proof (AmountDims_update_to_maxed_in_place this mode other h) as H.
      rewrite Hr in H. exact H.
Qed.

End Mismatch.

(** ** The examples of the specification, run *)

(** Example 1: [is_less(a, b)] is false (dimension 1 decides), [a == b]
    is false, [a + b] is [[4,8,10]] and [a.update_to_maxed(b)] makes [a]
    [[2,5,9]]. *)
Example example_1 :
  Amount_operator_shl Debug (amount_at 1) (amount_at 2) store_example_1
  = Ok false store_example_1 /\
  Amount_operator_eq Debug (amount_at 1) (amount_at 2) store_example_1
  = Ok false store_example_1 /\
  operator_plus Signed 64 Debug (amount_at 1) (amount_at 2) store_example_1
  = Ok (amount_at 3)
       (<[3%positive := AmountDims [4; 8; 10]]> store_example_1) /\
  Amount_update_to_maxed Debug (amount_at 1) (amount_at 2) store_example_1
  = Ok tt (<[1%positive := AmountDims [2; 5; 9]]> store_example_1).
Proof. repeat split; vm_compute; reflexivity. Qed.

(** Example 2: [a == b] is true, [is_less(a, b)] is false and [a <= b] is
    true. *)
Example example_2 :
  Amount_operator_eq Debug (amount_at 1) (amount_at 2) store_example_2
  = Ok true store_example_2 /\
  Amount_operator_shl Debug (amount_at 1) (amount_at 2) store_example_2
  = Ok false store_example_2 /\
  Amount_operator_le Debug (amount_at 1) (amount_at 2) store_example_2
  = Ok true store_example_2.
Proof. repeat split; vm_compute; reflexivity. Qed.

(** Example 3, in a build with assertions: the copy made by [operator+]
    exists when the assertion of [add] fails; the operands are as they
    were. *)
Example example_3 :
  operator_plus Signed 64 Debug (amount_at 1) (amount_at 2) store_example_3
  = Aborted (<[3%positive := AmountDims [1; 2]]> store_example_3).
Proof. vm_compute. reflexivity. Qed.

(** Example 3 under [NDEBUG], where nothing checks the lengths: the loop
    of [add] runs over the dimensions of [this]; reading [other] past its
    end is undefined. *)
Example example_3_ndebug :
  AmountDims_add Signed 64 Release 1%positive 2%positive store_example_3
  = Ok tt (<[1%positive := AmountDims [2; 4]]> store_example_3) /\
  AmountDims_add Signed 64 Release 2%positive 1%positive store_example_3
  = Undefined.
Proof. split; vm_compute; reflexivity. Qed.

(** Wrap-around at the ends of the range of an 8-bit scalar. *)
Example wrap_8_bits :
  wrap Signed 8 (127 + 1) = -128 /\ wrap Unsigned 8 (255 + 1) = 0 /\
  wrap Signed 8 (-128 - 1) = 127 /\ wrap Unsigned 8 (0 - 1) = 255.
Proof. repeat split. Qed.

(** ** The properties at the examples *)

Lemma is_less_lexicographic_witness :
  store_example_1 !! 1%positive = Some (AmountDims [2; 5; 1]) /\
  store_example_1 !! 2%positive = Some (AmountDims [2; 3; 9]) /\
  length [2; 5; 1] = length [2; 3; 9] /\
  exists r : bool,
    AmountDims_is_less Debug 1%positive 2%positive store_example_1
    = Ok r store_example_1 /\
    (length [2; 5; 1] = 0%nat -> r = false) /\
    (forall i x y,
        (i < length [2; 5; 1] - 1)%nat ->
        take i [2; 5; 1] = take i [2; 3; 9] ->
        [2; 5; 1] !! i = Some x -> [2; 3; 9] !! i = Some y ->
        (x < y -> r = true) /\ (x > y -> r = false)) /\
    (forall x y,
        take (length [2; 5; 1] - 1) [2; 5; 1]
        = take (length [2; 5; 1] - 1) [2; 3; 9] ->
        [2; 5; 1] !! (length [2; 5; 1] - 1)%nat = Some x ->
        [2; 3; 9] !! (length [2; 5; 1] - 1)%nat = Some y ->
        r = (x <? y)).
Proof.
  split; [reflexivity|]. split; [reflexivity|]. split; [reflexivity|].
  apply (is_less_lexicographic Debug store_example_1 1%positive 2%positive
           [2; 5; 1] [2; 3; 9]); reflexivity.
Defined.

Lemma le_iff_less_or_equal_witness :
  store_example_2 !! m_impl (amount_at 1) = Some (AmountDims [1; 2]) /\
  store_example_2 !! m_impl (amount_at 2) = Some (AmountDims [1; 2]) /\
  same_shape (AmountDims [1; 2]) (AmountDims [1; 2]) /\
  exists l e r : bool,
    AmountImpl_is_less Debug (m_impl (amount_at 1)) (m_impl (amount_at 2))
      store_example_2 = Ok l store_example_2 /\
    AmountImpl_is_equal Debug (m_impl (amount_at 1)) (m_impl (amount_at 2))
      store_example_2 = Ok e store_example_2 /\
    Amount_operator_le Debug (amount_at 1) (amount_at 2) store_example_2
    = Ok r store_example_2 /\
    (r = true <-> l = true \/ e = true).
Proof.
  split; [reflexivity|]. split; [reflexivity|]. split; [reflexivity|].
  apply (le_iff_less_or_equal Debug store_example_2 (amount_at 1)
           (amount_at 2) (AmountDims [1; 2]) (AmountDims [1; 2]));
    reflexivity.
Defined.

Lemma length_mismatch_aborts_witness :
  store_example_3 !! 1%positive = Some (AmountDims [1; 2]) /\
  store_example_3 !! 2%positive = Some (AmountDims [1; 2; 3]) /\
  length [1; 2] <> length [1; 2; 3] /\
  (AmountDims_is_less Debug 1%positive 2%positive store_example_3
   = Aborted store_example_3 /\
   AmountDims_is_equal Debug 1%positive 2%positive store_example_3
   = Aborted store_example_3 /\
   AmountDims_add Signed 64 Debug 1%positive 2%positive store_example_3
   = Aborted store_example_3 /\
   AmountDims_sub Signed 64 Debug 1%positive 2%positive store_example_3
   = Aborted store_example_3 /\
   AmountDims_update_to_maxed Debug 1%positive 2%positive store_example_3
   = Aborted store_example_3) /\
  lengths_kept (<[1%positive := AmountDims [2; 4]]> store_example_3)
    1%positive 2%positive (length [1; 2]) (length [1; 2; 3]).
Proof.
  split; [reflexivity|]. split; [reflexivity|]. split; [discriminate|].
  destruct (length_mismatch_aborts Signed 64 store_example_3 1%positive
              2%positive [1; 2] [1; 2; 3])
    as (Hdebug & _ & Hkept); [reflexivity | reflexivity | discriminate |].
  split; [exact Hdebug|].
  apply (proj1 (proj2 (proj2
           (Hkept Release (<[1%positive := AmountDims [2; 4]]> store_example_3))))
           tt).
  vm_compute. reflexivity.
Defined.

Lemma add_sub_round_trip_witness :
  store_example_1 !! m_impl (amount_at 1) = Some (AmountDims [2; 5; 1]) /\
  store_example_1 !! m_impl (amount_at 2) = Some (AmountDims [2; 3; 9]) /\
  same_shape (AmountDims [2; 5; 1]) (AmountDims [2; 3; 9]) /\
  well_formed Signed 64 (AmountDims [2; 5; 1]) /\
  exists (s : Amount) (h1 : heap) (d : Amount) (h2 : heap) (os : AmountImpl),
    operator_plus Signed 64 Debug (amount_at 1) (amount_at 2) store_example_1
    = Ok s h1 /\
    operator_minus Signed 64 Debug s (amount_at 2) h1 = Ok d h2 /\
    Amount_operator_eq Debug d (amount_at 1) h2 = Ok true h2 /\
    (store_example_1 !! m_impl s = None /\
     Amount_copy (amount_at 1) store_example_1
     = Ok s (<[m_impl s := AmountDims [2; 5; 1]]> store_example_1) /\
     Amount_operator_plus_assign Signed 64 Debug s (amount_at 2)
       (<[m_impl s := AmountDims [2; 5; 1]]> store_example_1)
     = Ok s h1 /\
     forall l, l <> m_impl s -> h1 !! l = store_example_1 !! l) /\
    (h1 !! m_impl s = Some os /\
     h1 !! m_impl d = None /\
     Amount_copy s h1 = Ok d (<[m_impl d := os]> h1) /\
     Amount_operator_minus_assign Signed 64 Debug d (amount_at 2)
       (<[m_impl d := os]> h1)
     = Ok d h2 /\
     forall l, l <> m_impl d -> h2 !! l = h1 !! l).
Proof.
  split; [reflexivity|]. split; [reflexivity|]. split; [reflexivity|].
  split; [repeat constructor|].
  apply (add_sub_round_trip Signed 64 Debug store_example_1 (amount_at 1)
           (amount_at 2) (AmountDims [2; 5; 1]) (AmountDims [2; 3; 9]));
    try reflexivity.
  repeat constructor.
Defined.

Lemma get_zero_identity_witness :
  store_example_1 !! m_impl (amount_at 1) = Some (AmountDims [2; 5; 1]) /\
  well_formed Signed 64 (AmountDims [2; 5; 1]) /\
  exists (z : Amount) (h1 : heap) (s : Amount) (h2 : heap),
    Amount_get_zero (amount_at 1) store_example_1 = Ok z h1 /\
    store_example_1 !! m_impl z = None /\
    h1 !! m_impl z = Some (AmountDims (replicate (length [2; 5; 1]) 0)) /\
    (forall l, l <> m_impl z -> h1 !! l = store_example_1 !! l) /\
    operator_plus Signed 64 Debug z (amount_at 1) h1 = Ok s h2 /\
    Amount_operator_eq Debug s (amount_at 1) h2 = Ok true h2.
Proof.
  split; [reflexivity|]. split; [repeat constructor|].
  apply (get_zero_identity Signed 64 Debug store_example_1 (amount_at 1)
           (AmountDims [2; 5; 1])); [reflexivity | repeat constructor].
Defined.

Lemma update_to_maxed_max_witness :
  (store_empty_pair !! m_impl (amount_at 1) = Some AmountEmpty /\
   Amount_update_to_maxed Debug (amount_at 1) (amount_at 1) store_empty_pair
   = Ok tt store_empty_pair) /\
  (store_example_1 !! m_impl (amount_at 1) = Some (AmountDims [2; 5; 1]) /\
   store_example_1 !! m_impl (amount_at 2) = Some (AmountDims [2; 3; 9]) /\
   length [2; 5; 1] = length [2; 3; 9] /\
   exists r : list Capacity,
     Amount_update_to_maxed Debug (amount_at 1) (amount_at 2) store_example_1
     = Ok tt (<[m_impl (amount_at 1) := AmountDims r]> store_example_1) /\
     length r = length [2; 5; 1] /\
     forall i x y, [2; 5; 1] !! i = Some x -> [2; 3; 9] !! i = Some y ->
                   r !! i = Some (Z.max x y)).
Proof.
  split.
  - split; [reflexivity|].
    apply (proj1 (update_to_maxed_max Debug) store_empty_pair (amount_at 1)
             AmountEmpty). reflexivity.
  - split; [reflexivity|]. split; [reflexivity|]. split; [reflexivity|].
    apply (proj2 (update_to_maxed_max Debug) store_example_1 (amount_at 1)
             (amount_at 2) [2; 5; 1] [2; 3; 9]); reflexivity.
Defined.

Lemma empty_closure_witness :
  store_empty_pair !! m_impl (amount_at 1) = Some AmountEmpty /\
  store_empty_pair !! m_impl (amount_at 2) = Some AmountEmpty /\
  Amount_operator_eq Debug (amount_at 1) (amount_at 2) store_empty_pair
  = Ok true store_empty_pair /\
  Amount_operator_shl Debug (amount_at 1) (amount_at 2) store_empty_pair
  = Ok false store_empty_pair /\
  Amount_operator_shl Debug (amount_at 2) (amount_at 1) store_empty_pair
  = Ok false store_empty_pair /\
  Amount_operator_plus_assign Signed 64 Debug (amount_at 1) (amount_at 2)
    store_empty_pair = Ok (amount_at 1) store_empty_pair /\
  Amount_operator_minus_assign Signed 64 Debug (amount_at 1) (amount_at 2)
    store_empty_pair = Ok (amount_at 1) store_empty_pair /\
  Amount_update_to_maxed Debug (amount_at 1) (amount_at 2) store_empty_pair
  = Ok tt store_empty_pair /\
  AmountImpl_set_zero (m_impl (amount_at 1)) store_empty_pair
  = Ok tt store_empty_pair /\
  AmountImpl_set_zero (m_impl (amount_at 2)) store_empty_pair
  = Ok tt store_empty_pair.
Proof.
  split; [reflexivity|]. split; [reflexivity|].
  apply (proj2 (empty_closure Signed 64 Debug) store_empty_pair (amount_at 1)
           (amount_at 2)); reflexivity.
Defined.

Lemma less_equal_trichotomy_witness :
  store_example_1 !! m_impl (amount_at 1) = Some (AmountDims [2; 5; 1]) /\
  store_example_1 !! m_impl (amount_at 2) = Some (AmountDims [2; 3; 9]) /\
  length [2; 5; 1] = length [2; 3; 9] /\
  exists l g e : bool,
    Amount_operator_shl Debug (amount_at 1) (amount_at 2) store_example_1
    = Ok l store_example_1 /\
    Amount_operator_shl Debug (amount_at 2) (amount_at 1) store_example_1
    = Ok g store_example_1 /\
    Amount_operator_eq Debug (amount_at 1) (amount_at 2) store_example_1
    = Ok e store_example_1 /\
    exactly_one l g e.
Proof.
  split; [reflexivity|]. split; [reflexivity|]. split; [reflexivity|].
  apply (less_equal_trichotomy Debug store_example_1 (amount_at 1)
           (amount_at 2) [2; 5; 1] [2; 3; 9]); reflexivity.
Defined.

Lemma sub_self_is_zero_witness :
  store_example_1 !! m_impl (amount_at 1) = Some (AmountDims [2; 5; 1]) /\
  exists (d : Amount) (h1 : heap) (z : Amount) (h2 : heap),
    operator_minus Signed 64 Debug (amount_at 1) (amount_at 1) store_example_1
    = Ok d h1 /\
    Amount_get_zero (amount_at 1) h1 = Ok z h2 /\
    Amount_operator_eq Debug d z h2 = Ok true h2.
Proof.
  split; [reflexivity|].
  apply (sub_self_is_zero Signed 64 Debug store_example_1 (amount_at 1)
           (AmountDims [2; 5; 1])). reflexivity.
Defined.

(** * Further properties of the classes *)

(** ** The order of [is_less] is the lexicographic order *)

Lemma dims_less_lex (a b : list Z) :
  length a = length b -> dims_less a b = lex_less a b.
Proof.
  revert b. induction a as [|x a IH]; intros [|y b] Hlen; try discriminate.
  - reflexivity.
  - injection Hlen as Hlen. rewrite (dims_less_cons x y a b Hlen). simpl.
    specialize (IH b Hlen). unfold less_step.
    destruct a as [|x1 a], b as [|y1 b]; try discriminate.
    + simpl. destruct (x <? y), (x =? y); reflexivity.
    + rewrite IH.
      destruct (Z.ltb_spec x y); destruct (Z.gtb_spec x y);
        destruct (Z.eqb_spec x y); try lia; reflexivity.
Qed.

Lemma dims_equal_eqb (a b : list Z) :
  dims_equal a b = true ->
  length a = length b -> a = b.
Proof. intros He Hlen. apply dims_equal_iff; assumption. Qed.

Lemma lex_less_irrefl (a : list Z) : lex_less a a = false.
Proof.
  induction a as [|x a IH]; [reflexivity|]. simpl.
  rewrite Z.ltb_irrefl, Z.eqb_refl, IH. reflexivity.
Qed.

Lemma lex_less_trans (a b c : list Z) :
  lex_less a b = true -> lex_less b c = true -> lex_less a c = true.
Proof.
  revert b c. induction a as [|x a IH]; intros [|y b] [|z c]; simpl;
    try discriminate.
  rewrite !orb_true_iff, !andb_true_iff, !Z.ltb_lt, !Z.eqb_eq.
  intros [Hxy|[-> Hab]] [Hyz|[-> Hbc]].
  - left. lia.
  - left. exact Hxy.
  - left. exact Hyz.
  - right. split; [reflexivity|]. exact (IH b c Hab Hbc).
Qed.

(** The lexicographic order, by the first index where the sequences
    differ. *)
Lemma lex_less_iff (a b : list Z) :
  lex_less a b = true <->
  exists i x y, take i a = take i b /\ a !! i = Some x /\ b !! i = Some y
                /\ x < y.
Proof.
  revert b. induction a as [|x a IH]; intros b.
  - simpl. split; [discriminate|]. intros (i & x & y & _ & Hx & _).
    rewrite lookup_nil in Hx. discriminate.
  - destruct b as [|y b].
    + simpl. split; [discriminate|]. intros (i & x' & y' & _ & _ & Hy & _).
      rewrite lookup_nil in Hy. discriminate.
    + simpl. rewrite orb_true_iff, andb_true_iff, Z.ltb_lt, Z.eqb_eq, IH.
      split.
      * intros [Hlt | [-> (i & x' & y' & Hpre & Hx & Hy & Hlt)]].
        -- exists 0%nat, x, y. repeat split; assumption.
        -- exists (S i), x', y'. simpl. rewrite Hpre. repeat split; assumption.
      * intros ([|i] & x' & y' & Hpre & Hx & Hy & Hlt); simpl in *.
        -- injection Hx as ->. injection Hy as ->. left. exact Hlt.
        -- injection Hpre as -> Hpre. right. split; [reflexivity|].
           exists i, x', y'. repeat split; assumption.
Qed.

(** Dominance implies the lexicographic order: a sequence that is nowhere
    greater is less or equal. *)
Lemma lex_less_or_equal_of_le (a b : list Z) :
  Forall2 Z.le a b -> lex_less a b || dims_equal a b = true.
Proof.
  induction 1 as [|x y a b Hxy Hab IH]; [reflexivity|].
  simpl. rewrite dims_equal_cons.
  destruct (Z.ltb_spec x y); [reflexivity|].
  destruct (Z.eqb_spec x y); [exact IH | lia].
Qed.

Lemma Forall2_le_max_l (a b : list Z) :
  Forall2 Z.le a (zip_with std_max a b) \/ length a <> length b.
Proof.
  revert b. induction a as [|x a IH]; intros [|y b]; simpl;
    try (right; discriminate); [left; constructor|].
  destruct (IH b) as [H|H]; [left|right; congruence].
  constructor; [|exact H]. rewrite std_max_is_max. lia.
Qed.

Lemma Forall2_le_max_r (a b : list Z) :
  Forall2 Z.le b (zip_with std_max a b) \/ length a <> length b.
Proof.
  revert b. induction a as [|x a IH]; intros [|y b]; simpl;
    try (right; discriminate); [left; constructor|].
  destruct (IH b) as [H|H]; [left|right; congruence].
  constructor; [|exact H]. rewrite std_max_is_max. lia.
Qed.

Lemma zip_max_comm (a b : list Z) :
  zip_with std_max a b = zip_with std_max b a.
Proof.
  revert b. induction a as [|x a IH]; intros [|y b]; simpl; try reflexivity.
  rewrite IH, !std_max_is_max, Z.max_comm. reflexivity.
Qed.

Lemma zip_max_idem (a b : list Z) :
  zip_with std_max (zip_with std_max a b) b = zip_with std_max a b.
Proof.
  revert b. induction a as [|x a IH]; intros [|y b]; simpl; try reflexivity.
  rewrite IH, !std_max_is_max. f_equal. lia.
Qed.

(** ** The scalar type: more arithmetic *)

Section ScalarRing.

Variable sg : signedness.
Variable width : positive.

Lemma wrap_add_l (x y : Z) :
  wrap sg width (wrap sg width x + y) = wrap sg width (x + y).
Proof.
  unfold wrap. destruct sg.
  - replace ((x + 2 ^ (Z.pos width - 1)) mod 2 ^ Z.pos width
             - 2 ^ (Z.pos width - 1) + y + 2 ^ (Z.pos width - 1))
      with ((x + 2 ^ (Z.pos width - 1)) mod 2 ^ Z.pos width + y) by lia.
    rewrite Zplus_mod_idemp_l. do 2 f_equal. lia.
  - rewrite Zplus_mod_idemp_l. reflexivity.
Qed.

Lemma wrap_add_r (x y : Z) :
  wrap sg width (x + wrap sg width y) = wrap sg width (x + y).
Proof. rewrite Z.add_comm, wrap_add_l. f_equal. lia. Qed.

Lemma wrap_add_assoc (x y z : Z) :
  wrap sg width (wrap sg width (x + y) + z)
  = wrap sg width (x + wrap sg width (y + z)).
Proof. rewrite wrap_add_l, wrap_add_r. f_equal. lia. Qed.

Lemma sub_then_add (x y : Z) :
  in_range sg width x ->
  wrap sg width (wrap sg width (x - y) + y) = x.
Proof.
  intros Hx. rewrite wrap_add_l. replace (x - y + y) with x by lia. exact Hx.
Qed.

Lemma add_self_range (x y : Z) : in_range sg width (wrap sg width (x + y)).
Proof.
  unfold in_range.
  rewrite <- (Z.add_0_r (wrap sg width (x + y))) at 1.
  rewrite wrap_add_l, Z.add_0_r. reflexivity.
Qed.

Lemma zip_add_comm (ea eb : list Z) :
  zip_with (fun x y => wrap sg width (x + y)) ea eb
  = zip_with (fun x y => wrap sg width (x + y)) eb ea.
Proof.
  revert eb. induction ea as [|x ea IH]; intros [|y eb]; simpl;
    try reflexivity.
  rewrite IH, Z.add_comm. reflexivity.
Qed.

Lemma zip_add_assoc (ea eb ec : list Z) :
  zip_with (fun x y => wrap sg width (x + y))
    (zip_with (fun x y => wrap sg width (x + y)) ea eb) ec
  = zip_with (fun x y => wrap sg width (x + y)) ea
      (zip_with (fun x y => wrap sg width (x + y)) eb ec).
Proof.
  revert eb ec. induction ea as [|x ea IH]; intros [|y eb] [|z ec]; simpl;
    try reflexivity.
  rewrite IH, wrap_add_assoc. reflexivity.
Qed.

Lemma zip_sub_add (ea eb : list Z) :
  Forall (in_range sg width) ea -> length ea = length eb ->
  zip_with (fun x y => wrap sg width (x + y))
    (zip_with (fun x y => wrap sg width (x - y)) ea eb) eb = ea.
Proof.
  intros Hr. revert eb. induction Hr as [|x ea Hx Hr IH]; intros [|y eb] Hlen;
    try discriminate; simpl.
  - reflexivity.
  - rewrite (sub_then_add x y Hx). f_equal. apply IH.
    injection Hlen as Hlen. exact Hlen.
Qed.

End ScalarRing.

(** ** The comparisons as relations on objects *)

Lemma impl_equal_true (o o' : AmountImpl) :
  same_shape o o' -> impl_equal o o' = true -> o = o'.
Proof.
  destruct o as [e|], o' as [e'|]; simpl; try contradiction; [|reflexivity].
  intros Hlen He. f_equal. apply dims_equal_eqb; assumption.
Qed.

Lemma impl_equal_sym (o o' : AmountImpl) :
  same_shape o o' -> impl_equal o o' = impl_equal o' o.
Proof.
  destruct o as [e|], o' as [e'|]; simpl; try contradiction; [|reflexivity].
  intros Hlen.
  destruct (dims_equal e e') eqn:E1, (dims_equal e' e) eqn:E2; try reflexivity.
  - apply dims_equal_eqb in E1; [|exact Hlen]. subst.
    rewrite dims_equal_refl in E2. discriminate.
  - apply dims_equal_eqb in E2; [|symmetry; exact Hlen]. subst.
    rewrite dims_equal_refl in E1. discriminate.
Qed.

Lemma impl_less_irrefl (o : AmountImpl) : impl_less o o = false.
Proof.
  destruct o as [e|]; simpl; [|reflexivity].
  rewrite dims_less_lex by reflexivity. apply lex_less_irrefl.
Qed.

Lemma impl_less_trans (o1 o2 o3 : AmountImpl) :
  same_shape o1 o2 -> same_shape o2 o3 ->
  impl_less o1 o2 = true -> impl_less o2 o3 = true -> impl_less o1 o3 = true.
Proof.
  destruct o1 as [e1|], o2 as [e2|], o3 as [e3|]; simpl;
    try contradiction; try discriminate.
  intros H12 H23. rewrite !dims_less_lex by congruence. apply lex_less_trans.
Qed.

Lemma impl_total (o o' : AmountImpl) :
  same_shape o o' ->
  impl_less o o' || impl_equal o o' = true \/
  impl_less o' o || impl_equal o' o = true.
Proof.
  destruct o as [e|], o' as [e'|]; simpl; try contradiction; [|auto].
  intros Hlen.
  destruct (dims_trichotomy e e' Hlen) as [(-> & _)|[(_ & -> & _)|(_ & _ & ->)]].
  - left. reflexivity.
  - right. reflexivity.
  - left. apply orb_true_r.
Qed.

Section Relations.

Variable mode : build.

Lemma Amount_operator_eq_ok (h : heap) (a b : Amount) o o' :
  h !! m_impl a = Some o -> h !! m_impl b = Some o' -> same_shape o o' ->
  Amount_operator_eq mode a b h = Ok (impl_equal o o') h.
Proof. apply AmountImpl_is_equal_ok. Qed.

Lemma Amount_operator_shl_ok (h : heap) (a b : Amount) o o' :
  h !! m_impl a = Some o -> h !! m_impl b = Some o' -> same_shape o o' ->
  Amount_operator_shl mode a b h = Ok (impl_less o o') h.
Proof. apply AmountImpl_is_less_ok. Qed.

Lemma Amount_operator_le_ok (h : heap) (a b : Amount) o o' :
  h !! m_impl a = Some o -> h !! m_impl b = Some o' -> same_shape o o' ->
  Amount_operator_le mode a b h = Ok (impl_less o o' || impl_equal o o') h.
Proof.
  intros Ha Hb Hs. unfold Amount_operator_le.
  rewrite (bind_ok _ _ _ _ _ (AmountImpl_is_less_ok mode h _ _ o o' Ha Hb Hs)).
  destruct (impl_less o o'); [reflexivity|].
  apply AmountImpl_is_equal_ok; assumption.
Qed.

(** X1.  On two [AmountDims] of the same length, [a == b] returns, leaves
    the store as it was, and is true exactly when the two sequences are
    equal, dimension by dimension. *)
Theorem is_equal_iff_same_elems (h : heap) (a b : Amount)
    (ea eb : list Capacity) :
  h !! m_impl a = Some (AmountDims ea) ->
  h !! m_impl b = Some (AmountDims eb) ->
  length ea = length eb ->
  exists r : bool,
    Amount_operator_eq mode a b h = Ok r h /\
    (r = true <-> forall i, ea !! i = eb !! i).
Proof.
  intros Ha Hb Hlen. exists (dims_equal ea eb). split.
  - apply (Amount_operator_eq_ok h a b _ _ Ha Hb). exact Hlen.
  - rewrite (dims_equal_iff ea eb Hlen). split.
    + intros ->. reflexivity.
    + apply list_eq.
Qed.

(** X2.  [==] is an equivalence: [a == a] is true for every amount, and on
    amounts of the same shape [a == b] and [b == a] give the same answer,
    and [a == b] and [b == c] true make [a == c] true. *)
Theorem operator_eq_equivalence :
  (forall (h : heap) (a : Amount) (o : AmountImpl),
      h !! m_impl a = Some o ->
      Amount_operator_eq mode a a h = Ok true h) /\
  (forall (h : heap) (a b : Amount) (oa ob : AmountImpl),
      h !! m_impl a = Some oa -> h !! m_impl b = Some ob ->
      same_shape oa ob ->
      exists r : bool,
        Amount_operator_eq mode a b h = Ok r h /\
        Amount_operator_eq mode b a h = Ok r h) /\
  (forall (h : heap) (a b c : Amount) (oa ob oc : AmountImpl),
      h !! m_impl a = Some oa -> h !! m_impl b = Some ob ->
      h !! m_impl c = Some oc ->
      same_shape oa ob -> same_shape ob oc ->
      Amount_operator_eq mode a b h = Ok true h ->
      Amount_operator_eq mode b c h = Ok true h ->
      Amount_operator_eq mode a c h = Ok true h).
Proof.
  split; [|split].
  - intros h a o Ha.
    rewrite (Amount_operator_eq_ok h a a o o Ha Ha (same_shape_refl o)).
    rewrite impl_equal_refl. reflexivity.
  - intros h a b oa ob Ha Hb Hs. exists (impl_equal oa ob). split.
    + apply Amount_operator_eq_ok; assumption.
    + rewrite (impl_equal_sym oa ob Hs).
      apply Amount_operator_eq_ok; [assumption..|].
      eapply same_shape_trans; [|apply same_shape_refl].
      destruct oa, ob; simpl in *; auto.
  - intros h a b c oa ob oc Ha Hb Hc Hab Hbc.
    rewrite (Amount_operator_eq_ok h a b oa ob Ha Hb Hab).
    rewrite (Amount_operator_eq_ok h b c ob oc Hb Hc Hbc).
    intros [= E1] [= E2].
    apply (impl_equal_true _ _ Hab) in E1. subst ob.
    rewrite (Amount_operator_eq_ok h a c oa oc Ha Hc Hbc), E2. reflexivity.
Qed.

(** X3.  On two [AmountDims] of the same length, [is_less] is the strict
    lexicographic order over all the dimensions, the last one included:
    it is true exactly when, at the first index where the sequences
    differ, the element of [this] is the smaller one. *)
Theorem is_less_iff_first_difference (h : heap) (this other : loc)
    (ea eb : list Capacity) :
  h !! this = Some (AmountDims ea) ->
  h !! other = Some (AmountDims eb) ->
  length ea = length eb ->
  exists r : bool,
    AmountDims_is_less mode this other h = Ok r h /\
    (r = true <->
     exists i x y, take i ea = take i eb /\ ea !! i = Some x /\
                   eb !! i = Some y /\ x < y).
Proof.
  intros Ha Hb Hlen. exists (dims_less ea eb). split.
  - apply AmountDims_is_less_ok; assumption.
  - rewrite (dims_less_lex ea eb Hlen). apply lex_less_iff.
Qed.

(** X4.  [<<] is a strict order: [a << a] is false for every amount, and
    on amounts of the same shape [a << b] and [b << c] true make [a << c]
    true. *)
Theorem operator_shl_strict_order :
  (forall (h : heap) (a : Amount) (o : AmountImpl),
      h !! m_impl a = Some o ->
      Amount_operator_shl mode a a h = Ok false h) /\
  (forall (h : heap) (a b c : Amount) (oa ob oc : AmountImpl),
      h !! m_impl a = Some oa -> h !! m_impl b = Some ob ->
      h !! m_impl c = Some oc ->
      same_shape oa ob -> same_shape ob oc ->
      Amount_operator_shl mode a b h = Ok true h ->
      Amount_operator_shl mode b c h = Ok true h ->
      Amount_operator_shl mode a c h = Ok true h).
Proof.
  split.
  - intros h a o Ha.
    rewrite (Amount_operator_shl_ok h a a o o Ha Ha (same_shape_refl o)).
    rewrite impl_less_irrefl. reflexivity.
  - intros h a b c oa ob oc Ha Hb Hc Hab Hbc.
    rewrite (Amount_operator_shl_ok h a b oa ob Ha Hb Hab).
    rewrite (Amount_operator_shl_ok h b c ob oc Hb Hc Hbc).
    intros [= E1] [= E2].
    rewrite (Amount_operator_shl_ok h a c oa oc Ha Hc
               (same_shape_trans _ _ _ Hab Hbc)).
    rewrite (impl_less_trans oa ob oc Hab Hbc E1 E2). reflexivity.
Qed.

(** X5.  [<=] is a total order up to [==]: [a <= a] is true for every
    amount; on amounts of the same shape one of [a <= b] and [b <= a] is
    true, [a <= b] and [b <= c] true make [a <= c] true, and [a <= b] and
    [b <= a] true make [a == b] true. *)
Theorem operator_le_total_order :
  (forall (h : heap) (a : Amount) (o : AmountImpl),
      h !! m_impl a = Some o ->
      Amount_operator_le mode a a h = Ok true h) /\
  (forall (h : heap) (a b : Amount) (oa ob : AmountImpl),
      h !! m_impl a = Some oa -> h !! m_impl b = Some ob ->
      same_shape oa ob ->
      exists r r' : bool,
        Amount_operator_le mode a b h = Ok r h /\
        Amount_operator_le mode b a h = Ok r' h /\
        (r = true \/ r' = true)) /\
  (forall (h : heap) (a b c : Amount) (oa ob oc : AmountImpl),
      h !! m_impl a = Some oa -> h !! m_impl b = Some ob ->
      h !! m_impl c = Some oc ->
      same_shape oa ob -> same_shape ob oc ->
      Amount_operator_le mode a b h = Ok true h ->
      Amount_operator_le mode b c h = Ok true h ->
      Amount_operator_le mode a c h = Ok true h) /\
  (forall (h : heap) (a b : Amount) (oa ob : AmountImpl),
      h !! m_impl a = Some oa -> h !! m_impl b = Some ob ->
      same_shape oa ob ->
      Amount_operator_le mode a b h = Ok true h ->
      Amount_operator_le mode b a h = Ok true h ->
      Amount_operator_eq mode a b h = Ok true h).
Proof.
  assert (Hsym : forall o o', same_shape o o' -> same_shape o' o).
  { intros [e|] [e'|]; simpl; auto. }
  split; [|split; [|split]].
  - intros h a o Ha.
    rewrite (Amount_operator_le_ok h a a o o Ha Ha (same_shape_refl o)).
    rewrite impl_equal_refl, orb_true_r. reflexivity.
  - intros h a b oa ob Ha Hb Hs.
    exists (impl_less oa ob || impl_equal oa ob),
      (impl_less ob oa || impl_equal ob oa).
    split; [apply Amount_operator_le_ok; assumption|].
    split; [apply Amount_operator_le_ok; auto|].
    apply impl_total, Hs.
  - intros h a b c oa ob oc Ha Hb Hc Hab Hbc.
    rewrite (Amount_operator_le_ok h a b oa ob Ha Hb Hab).
    rewrite (Amount_operator_le_ok h b c ob oc Hb Hc Hbc).
    intros [= E1] [= E2].
    rewrite (Amount_operator_le_ok h a c oa oc Ha Hc
               (same_shape_trans _ _ _ Hab Hbc)).
    f_equal. apply orb_true_iff in E1, E2. apply orb_true_iff.
    destruct E1 as [L1|Q1], E2 as [L2|Q2].
    + left. exact (impl_less_trans oa ob oc Hab Hbc L1 L2).
    + apply (impl_equal_true _ _ Hbc) in Q2. subst oc. left. exact L1.
    + apply (impl_equal_true _ _ Hab) in Q1. subst ob. left. exact L2.
    + apply (impl_equal_true _ _ Hab) in Q1. subst ob. right. exact Q2.
  - intros h a b oa ob Ha Hb Hs.
    rewrite (Amount_operator_le_ok h a b oa ob Ha Hb Hs).
    rewrite (Amount_operator_le_ok h b a ob oa Hb Ha (Hsym _ _ Hs)).
    intros [= E1] [= E2].
    rewrite (Amount_operator_eq_ok h a b oa ob Ha Hb Hs). f_equal.
    apply orb_true_iff in E1, E2.
    destruct E1 as [L1|Q1]; [|exact Q1].
    destruct E2 as [L2|Q2]; [|rewrite (impl_equal_sym oa ob Hs); exact Q2].
    pose proof (impl_less_trans oa ob oa Hs (Hsym _ _ Hs) L1 L2) as L.
    rewrite impl_less_irrefl in L. discriminate.
Qed.

End Relations.

(** ** Shapes and lookups after allocations *)

Lemma same_shape_sym (o o' : AmountImpl) : same_shape o o' -> same_shape o' o.
Proof. destruct o, o'; simpl; auto. Qed.

Lemma same_shape_combined_l (f : Z -> Z -> Z) (o o' : AmountImpl) :
  same_shape o o' -> same_shape (combined f o o') o.
Proof.
  intros Hs. eapply same_shape_trans; [apply same_shape_combined, Hs|].
  apply same_shape_sym, Hs.
Qed.

Lemma same_shape_iff (o o' : AmountImpl) :
  same_shape o o' <-> shape_of o = shape_of o'.
Proof.
  destruct o, o'; simpl; split; try congruence; try contradiction; auto.
Qed.

Lemma shape_of_combined (f : Z -> Z -> Z) (o o' : AmountImpl) :
  shape_of o = shape_of o' -> shape_of (combined f o o') = shape_of o.
Proof.
  intros Hs. apply same_shape_iff, same_shape_combined_l, same_shape_iff, Hs.
Qed.

Lemma shape_of_zeroed (o : AmountImpl) : shape_of (zeroed o) = shape_of o.
Proof. apply same_shape_iff, same_shape_zeroed. Qed.

Ltac shape_eq :=
  first [ congruence
        | rewrite shape_of_combined by shape_eq; shape_eq
        | rewrite shape_of_zeroed; shape_eq ].

Ltac shape :=
  repeat match goal with
         | H : same_shape _ _ |- _ => apply same_shape_iff in H
         end;
  apply same_shape_iff; shape_eq.

Ltac look :=
  first [ eassumption
        | apply lookup_insert_eq
        | apply lookup_alloc_old; look ].

Section Arithmetic.

Variable sg : signedness.
Variable width : positive.
Variable mode : build.

Local Abbreviation add_cap := (fun x y : Capacity => wrap sg width (x + y)).
Local Abbreviation sub_cap := (fun x y : Capacity => wrap sg width (x - y)).

Lemma Amount_operator_plus_assign_ok (h : heap) (a b : Amount) o o' :
  h !! m_impl a = Some o -> h !! m_impl b = Some o' -> same_shape o o' ->
  Amount_operator_plus_assign sg width mode a b h
  = Ok a (<[m_impl a := combined add_cap o o']> h).
Proof.
  intros Ha Hb Hs. unfold Amount_operator_plus_assign.
  rewrite (bind_ok _ _ _ _ _
             (AmountImpl_add_ok sg width mode h _ _ o o' Ha Hb Hs)).
  reflexivity.
Qed.

Lemma Amount_operator_minus_assign_ok (h : heap) (a b : Amount) o o' :
  h !! m_impl a = Some o -> h !! m_impl b = Some o' -> same_shape o o' ->
  Amount_operator_minus_assign sg width mode a b h
  = Ok a (<[m_impl a := combined sub_cap o o']> h).
Proof.
  intros Ha Hb Hs. unfold Amount_operator_minus_assign.
  rewrite (bind_ok _ _ _ _ _
             (AmountImpl_sub_ok sg width mode h _ _ o o' Ha Hb Hs)).
  reflexivity.
Qed.

Lemma combined_add_comm (o o' : AmountImpl) :
  same_shape o o' -> combined add_cap o o' = combined add_cap o' o.
Proof.
  destruct o, o'; simpl; try contradiction; [|reflexivity].
  intros _. f_equal. apply zip_add_comm.
Qed.

Lemma combined_add_assoc (o1 o2 o3 : AmountImpl) :
  same_shape o1 o2 -> same_shape o2 o3 ->
  combined add_cap (combined add_cap o1 o2) o3
  = combined add_cap o1 (combined add_cap o2 o3).
Proof.
  destruct o1, o2, o3; simpl; try contradiction; [|reflexivity].
  intros _ _. f_equal. apply zip_add_assoc.
Qed.

Lemma combined_sub_add (o o' : AmountImpl) :
  same_shape o o' -> well_formed sg width o ->
  combined add_cap (combined sub_cap o o') o' = o.
Proof.
  destruct o, o'; simpl; try contradiction; [|reflexivity].
  intros Hlen Hwf. f_equal. apply zip_sub_add; assumption.
Qed.

Lemma combined_add_sub (o o' : AmountImpl) :
  same_shape o o' -> well_formed sg width o ->
  combined sub_cap (combined add_cap o o') o' = o.
Proof.
  destruct o, o'; simpl; try contradiction; [|reflexivity].
  intros Hlen Hwf. f_equal. apply zip_add_sub; assumption.
Qed.

(** X6.  [+] is commutative and associative up to [==]: on amounts of the
    same shape, [a + b == b + a] and [(a + b) + c == a + (b + c)] are
    true. *)
Theorem operator_plus_comm_assoc :
  (forall (h : heap) (a b : Amount) (oa ob : AmountImpl),
      h !! m_impl a = Some oa -> h !! m_impl b = Some ob ->
      same_shape oa ob ->
      exists h' : heap,
        (let* s := operator_plus sg width mode a b in
         let* t := operator_plus sg width mode b a in
         Amount_operator_eq mode s t) h = Ok true h') /\
  (forall (h : heap) (a b c : Amount) (oa ob oc : AmountImpl),
      h !! m_impl a = Some oa -> h !! m_impl b = Some ob ->
      h !! m_impl c = Some oc ->
      same_shape oa ob -> same_shape ob oc ->
      exists h' : heap,
        (let* s1 := operator_plus sg width mode a b in
         let* s2 := operator_plus sg width mode s1 c in
         let* t1 := operator_plus sg width mode b c in
         let* t2 := operator_plus sg width mode a t1 in
         Amount_operator_eq mode s2 t2) h = Ok true h').
Proof.
  split.
  - intros h a b oa ob Ha Hb Hs. eexists.
    rewrite (bind_ok _ _ _ _ _
               (operator_plus_ok sg width mode h a b oa ob Ha Hb Hs)).
    set (h1 := <[fresh (dom h) := _]> h).
    assert (Ha1 : h1 !! m_impl a = Some oa) by look.
    assert (Hb1 : h1 !! m_impl b = Some ob) by look.
    rewrite (bind_ok _ _ _ _ _
               (operator_plus_ok sg width mode h1 b a ob oa Hb1 Ha1
                  (same_shape_sym _ _ Hs))).
    set (h2 := <[fresh (dom h1) := _]> h1).
    rewrite (Amount_operator_eq_ok mode h2 _ _
               (combined add_cap oa ob) (combined add_cap ob oa));
      [| simpl; look | simpl; look | shape].
    rewrite (combined_add_comm oa ob Hs), impl_equal_refl. reflexivity.
  - intros h a b c oa ob oc Ha Hb Hc Hab Hbc. eexists.
    rewrite (bind_ok _ _ _ _ _
               (operator_plus_ok sg width mode h a b oa ob Ha Hb Hab)).
    set (h1 := <[fresh (dom h) := _]> h).
    assert (Hs1 : h1 !! fresh (dom h) = Some (combined add_cap oa ob))
      by look.
    assert (Hc1 : h1 !! m_impl c = Some oc) by look.
    rewrite (bind_ok _ _ _ _ _
               (operator_plus_ok sg width mode h1 {| m_impl := _ |} c _ oc
                  Hs1 Hc1 ltac:(shape))).
    set (h2 := <[fresh (dom h1) := _]> h1).
    assert (Hb2 : h2 !! m_impl b = Some ob) by look.
    assert (Hc2 : h2 !! m_impl c = Some oc) by look.
    rewrite (bind_ok _ _ _ _ _
               (operator_plus_ok sg width mode h2 b c ob oc Hb2 Hc2 Hbc)).
    set (h3 := <[fresh (dom h2) := _]> h2).
    assert (Ha3 : h3 !! m_impl a = Some oa) by look.
    assert (Ht3 : h3 !! fresh (dom h2) = Some (combined add_cap ob oc))
      by look.
    rewrite (bind_ok _ _ _ _ _
               (operator_plus_ok sg width mode h3 a {| m_impl := _ |} oa _
                  Ha3 Ht3 ltac:(shape))).
    set (h4 := <[fresh (dom h3) := _]> h3).
    rewrite (Amount_operator_eq_ok mode h4 _ _
               (combined add_cap (combined add_cap oa ob) oc)
               (combined add_cap oa (combined add_cap ob oc)));
      [| simpl; look | simpl; look | shape].
    rewrite (combined_add_assoc oa ob oc Hab Hbc), impl_equal_refl.
    reflexivity.
Qed.

(** X7.  On amounts of the same shape, subtracting and then adding back
    gives the amount again: [(a - b) + b == a] is true. *)
Theorem sub_add_round_trip (h : heap) (a b : Amount) (oa ob : AmountImpl) :
  h !! m_impl a = Some oa -> h !! m_impl b = Some ob ->
  same_shape oa ob -> well_formed sg width oa ->
  exists h' : heap,
    (let* d := operator_minus sg width mode a b in
     let* s := operator_plus sg width mode d b in
     Amount_operator_eq mode s a) h = Ok true h' /\
    forall l, is_Some (h !! l) -> h' !! l = h !! l.
Proof.
  intros Ha Hb Hs Hwf. eexists. split.
  - rewrite (bind_ok _ _ _ _ _
               (operator_minus_ok sg width mode h a b oa ob Ha Hb Hs)).
    set (h1 := <[fresh (dom h) := _]> h).
    assert (Hd1 : h1 !! fresh (dom h) = Some (combined sub_cap oa ob))
      by look.
    assert (Hb1 : h1 !! m_impl b = Some ob) by look.
    rewrite (bind_ok _ _ _ _ _
               (operator_plus_ok sg width mode h1 {| m_impl := _ |} b _ ob
                  Hd1 Hb1 ltac:(shape))).
    set (h2 := <[fresh (dom h1) := _]> h1).
    rewrite (Amount_operator_eq_ok mode h2 _ _
               (combined add_cap (combined sub_cap oa ob) ob) oa);
      [| simpl; look | simpl; look | shape].
    rewrite (combined_sub_add oa ob Hs Hwf), impl_equal_refl. reflexivity.
  - intros l [o Hl]. rewrite Hl. look.
Qed.

End Arithmetic.

(** ** In-place arithmetic, maxima, copies and assignment *)

Lemma bind_undefined {A B} (m : M A) (k : A -> M B) h :
  m h = Undefined -> bind m k h = Undefined.
Proof. unfold bind. intros ->. reflexivity. Qed.

Lemma zeroed_combined (f : Z -> Z -> Z) (o o' : AmountImpl) :
  same_shape o o' -> zeroed (combined f o o') = zeroed o.
Proof.
  destruct o, o'; simpl; try contradiction; [|reflexivity].
  intros Hlen. rewrite length_zip_with. f_equal. f_equal. lia.
Qed.

Lemma combined_max_self (o : AmountImpl) : combined std_max o o = o.
Proof. destruct o; simpl; [|reflexivity]. f_equal. apply zip_max_self. Qed.

Lemma combined_max_idem (o o' : AmountImpl) :
  combined std_max (combined std_max o o') o' = combined std_max o o'.
Proof.
  destruct o, o'; simpl; try reflexivity. f_equal. apply zip_max_idem.
Qed.

Lemma combined_max_comm (o o' : AmountImpl) :
  same_shape o o' -> combined std_max o o' = combined std_max o' o.
Proof.
  destruct o, o'; simpl; try contradiction; [|reflexivity].
  intros _. f_equal. apply zip_max_comm.
Qed.

Lemma impl_le_max_l (o o' : AmountImpl) :
  same_shape o o' ->
  impl_less o (combined std_max o o') || impl_equal o (combined std_max o o')
  = true.
Proof.
  destruct o as [e|], o' as [e'|]; simpl; try contradiction; [|reflexivity].
  intros Hlen. rewrite dims_less_lex by (rewrite length_zip_with; lia).
  apply lex_less_or_equal_of_le.
  destruct (Forall2_le_max_l e e') as [H|H]; [exact H | contradiction].
Qed.

Lemma impl_le_max_r (o o' : AmountImpl) :
  same_shape o o' ->
  impl_less o' (combined std_max o o')
  || impl_equal o' (combined std_max o o') = true.
Proof.
  destruct o as [e|], o' as [e'|]; simpl; try contradiction; [|reflexivity].
  intros Hlen. rewrite dims_less_lex by (rewrite length_zip_with; lia).
  apply lex_less_or_equal_of_le.
  destruct (Forall2_le_max_r e e') as [H|H]; [exact H | contradiction].
Qed.

Lemma dealloc_ok (h : heap) l o :
  h !! l = Some o -> dealloc l h = Ok tt (delete l h).
Proof. unfold dealloc. intros ->. reflexivity. Qed.

Section InPlaceOperators.

Variable sg : signedness.
Variable width : positive.
Variable mode : build.

Local Abbreviation add_cap := (fun x y : Capacity => wrap sg width (x + y)).
Local Abbreviation sub_cap := (fun x y : Capacity => wrap sg width (x - y)).

Lemma Amount_update_to_maxed_ok (h : heap) (a b : Amount) o o' :
  h !! m_impl a = Some o -> h !! m_impl b = Some o' -> same_shape o o' ->
  Amount_update_to_maxed mode a b h
  = Ok tt (<[m_impl a := combined std_max o o']> h).
Proof. apply AmountImpl_update_to_maxed_ok. Qed.

(** X8.  In place, [a += b] followed by [a -= b] leaves the store exactly
    as it was when [a] and [b] own different objects of the same shape.
    When both operands are the same object the second step subtracts the
    doubled value from itself: [a += a] followed by [a -= a] leaves every
    dimension of [a] zero. *)
Theorem plus_assign_then_minus_assign :
  (forall (h : heap) (a b : Amount) (oa ob : AmountImpl),
      h !! m_impl a = Some oa -> h !! m_impl b = Some ob ->
      same_shape oa ob -> well_formed sg width oa ->
      m_impl a <> m_impl b ->
      (let* _ := Amount_operator_plus_assign sg width mode a b in
       Amount_operator_minus_assign sg width mode a b) h = Ok a h) /\
  (forall (h : heap) (a : Amount) (o : AmountImpl),
      h !! m_impl a = Some o ->
      (let* _ := Amount_operator_plus_assign sg width mode a a in
       Amount_operator_minus_assign sg width mode a a) h
      = Ok a (<[m_impl a := zeroed o]> h)).
Proof.
  split.
  - intros h a b oa ob Ha Hb Hs Hwf Hne.
    rewrite (bind_ok _ _ _ _ _
               (Amount_operator_plus_assign_ok sg width mode h a b oa ob
                  Ha Hb Hs)).
    rewrite (Amount_operator_minus_assign_ok sg width mode _ a b
               (combined add_cap oa ob) ob).
    + rewrite insert_insert_eq, (combined_add_sub sg width oa ob Hs Hwf).
      rewrite (insert_id _ _ _ Ha). reflexivity.
    + apply lookup_insert_eq.
    + rewrite lookup_insert_ne by exact Hne. exact Hb.
    + shape.
  - intros h a o Ha.
    rewrite (bind_ok _ _ _ _ _
               (Amount_operator_plus_assign_ok sg width mode h a a o o
                  Ha Ha (same_shape_refl o))).
    rewrite (Amount_operator_minus_assign_ok sg width mode _ a a
               (combined add_cap o o) (combined add_cap o o));
      [| apply lookup_insert_eq | apply lookup_insert_eq
       | apply same_shape_refl].
    rewrite insert_insert_eq. do 2 f_equal.
    transitivity (zeroed (combined add_cap o o)).
    + destruct (combined add_cap o o) as [e|]; simpl; [|reflexivity].
      f_equal. apply zip_sub_self.
    + apply zeroed_combined, same_shape_refl.
Qed.

(** X9.  After [a.update_to_maxed(b)] on amounts of the same shape, [a] is
    an upper bound in the order of [<=]: both [c <= a], for a copy [c] of
    [a] taken before the call, and [b <= a] are true. *)
Theorem update_to_maxed_upper_bound (h : heap) (a b : Amount)
    (oa ob : AmountImpl) :
  h !! m_impl a = Some oa -> h !! m_impl b = Some ob ->
  same_shape oa ob ->
  exists h' : heap,
    (let* c := Amount_copy a in
     let* _ := Amount_update_to_maxed mode a b in
     let* r := Amount_operator_le mode c a in
     let* r' := Amount_operator_le mode b a in
     ret (r && r')) h = Ok true h'.
Proof.
  intros Ha Hb Hs.
  exists (<[m_impl a := combined std_max oa ob]> (<[fresh (dom h) := oa]> h)).
  rewrite (bind_ok _ _ _ _ _ (Amount_copy_ok h a oa Ha)).
  set (h1 := <[fresh (dom h) := oa]> h).
  assert (Ha1 : h1 !! m_impl a = Some oa) by look.
  assert (Hb1 : h1 !! m_impl b = Some ob) by look.
  rewrite (bind_ok _ _ _ _ _ (Amount_update_to_maxed_ok h1 a b oa ob Ha1 Hb1 Hs)).
  set (h2 := <[m_impl a := combined std_max oa ob]> h1).
  assert (Ha2 : h2 !! m_impl a = Some (combined std_max oa ob))
    by apply lookup_insert_eq.
  assert (Hc2 : h2 !! fresh (dom h) = Some oa).
  { unfold h2. rewrite lookup_insert_ne by apply (fresh_ne _ _ _ Ha).
    apply lookup_insert_eq. }
  rewrite (bind_ok _ _ _ _ _
             (Amount_operator_le_ok mode h2 {| m_impl := _ |} a _ _ Hc2 Ha2
                ltac:(shape))).
  rewrite (impl_le_max_l oa ob Hs).
  destruct (decide (m_impl b = m_impl a)) as [E|Hne].
  - assert (ob = oa) by congruence. subst ob.
    assert (b = a) by (destruct a, b; simpl in *; congruence). subst b.
    rewrite (bind_ok _ _ _ _ _
               (Amount_operator_le_ok mode h2 a a _ _ Ha2 Ha2
                  (same_shape_refl _))).
    rewrite impl_equal_refl, orb_true_r. reflexivity.
  - assert (Hb2 : h2 !! m_impl b = Some ob).
    { unfold h2. rewrite lookup_insert_ne by congruence. exact Hb1. }
    rewrite (bind_ok _ _ _ _ _
               (Amount_operator_le_ok mode h2 b a _ _ Hb2 Ha2 ltac:(shape))).
    rewrite (impl_le_max_r oa ob Hs). reflexivity.
Qed.

(** X10.  [update_to_maxed] is idempotent and commutative: repeating
    [a.update_to_maxed(b)] changes nothing more, and the maximum of a copy
    of [a] with [b] is [==] to the maximum of a copy of [b] with [a]. *)
Theorem update_to_maxed_idempotent_commutative (h : heap) (a b : Amount)
    (oa ob : AmountImpl) :
  h !! m_impl a = Some oa -> h !! m_impl b = Some ob ->
  same_shape oa ob ->
  (exists h1 : heap,
      Amount_update_to_maxed mode a b h = Ok tt h1 /\
      Amount_update_to_maxed mode a b h1 = Ok tt h1) /\
  (exists h' : heap,
      (let* c := Amount_copy a in
       let* _ := Amount_update_to_maxed mode c b in
       let* c' := Amount_copy b in
       let* _ := Amount_update_to_maxed mode c' a in
       Amount_operator_eq mode c c') h = Ok true h').
Proof.
  intros Ha Hb Hs. split.
  - eexists. split; [apply Amount_update_to_maxed_ok; eassumption|].
    set (h1 := <[m_impl a := combined std_max oa ob]> h).
    assert (Ha1 : h1 !! m_impl a = Some (combined std_max oa ob))
      by apply lookup_insert_eq.
    destruct (decide (m_impl b = m_impl a)) as [E|Hne].
    + assert (b = a) by (destruct a, b; simpl in *; congruence). subst b.
      rewrite (Amount_update_to_maxed_ok h1 a a _ _ Ha1 Ha1
                 (same_shape_refl _)).
      rewrite combined_max_self. unfold h1. rewrite insert_insert_eq.
      reflexivity.
    + assert (Hb1 : h1 !! m_impl b = Some ob).
      { unfold h1. rewrite lookup_insert_ne by congruence. exact Hb. }
      rewrite (Amount_update_to_maxed_ok h1 a b _ _ Ha1 Hb1 ltac:(shape)).
      rewrite combined_max_idem. unfold h1. rewrite insert_insert_eq.
      reflexivity.
  - eexists.
    rewrite (bind_ok _ _ _ _ _ (Amount_copy_ok h a oa Ha)).
    set (h1 := <[fresh (dom h) := oa]> h).
    assert (Hc1 : h1 !! fresh (dom h) = Some oa) by look.
    assert (Hb1 : h1 !! m_impl b = Some ob) by look.
    rewrite (bind_ok _ _ _ _ _
               (Amount_update_to_maxed_ok h1 {| m_impl := _ |} b oa ob
                  Hc1 Hb1 Hs)).
    simpl. unfold h1. rewrite insert_insert_eq.
    set (h2 := <[fresh (dom h) := combined std_max oa ob]> h).
    assert (Hb2 : h2 !! m_impl b = Some ob) by look.
    assert (Ha2 : h2 !! m_impl a = Some oa) by look.
    rewrite (bind_ok _ _ _ _ _ (Amount_copy_ok h2 b ob Hb2)).
    set (h3 := <[fresh (dom h2) := ob]> h2).
    assert (Hc3 : h3 !! fresh (dom h2) = Some ob) by look.
    assert (Ha3 : h3 !! m_impl a = Some oa) by look.
    rewrite (bind_ok _ _ _ _ _
               (Amount_update_to_maxed_ok h3 {| m_impl := _ |} a ob oa
                  Hc3 Ha3 (same_shape_sym _ _ Hs))).
    simpl. unfold h3. rewrite insert_insert_eq.
    set (h4 := <[fresh (dom h2) := combined std_max ob oa]> h2).
    rewrite (Amount_operator_eq_ok mode h4 _ _
               (combined std_max oa ob) (combined std_max ob oa));
      [| simpl; look | simpl; look | shape].
    rewrite (combined_max_comm oa ob Hs), impl_equal_refl. reflexivity.
Qed.

(** X11.  The copy constructor makes a deep copy: the new wrapper owns an
    object at an address the store did not have, it is [==] to the source,
    and code that afterwards modifies one of the two objects in place
    (every member function does no more, see [modifies_in_place]) leaves
    the other one as it was. *)
Theorem copy_is_deep (h : heap) (a : Amount) (o : AmountImpl) :
  h !! m_impl a = Some o ->
  exists (c : Amount) (h1 : heap),
    Amount_copy a h = Ok c h1 /\
    h !! m_impl c = None /\
    h1 !! m_impl c = Some o /\
    h1 !! m_impl a = Some o /\
    Amount_operator_eq mode c a h1 = Ok true h1 /\
    (forall (A : Type) (m : M A) (r : A) (h2 : heap),
        modifies_in_place (m_impl c) m -> m h1 = Ok r h2 ->
        h2 !! m_impl a = Some o) /\
    (forall (A : Type) (m : M A) (r : A) (h2 : heap),
        modifies_in_place (m_impl a) m -> m h1 = Ok r h2 ->
        h2 !! m_impl c = Some o).
Proof.
  intros Ha. exists {| m_impl := fresh (dom h) |}, (<[fresh (dom h) := o]> h).
  set (h1 := <[fresh (dom h) := o]> h).
  assert (Hc1 : h1 !! fresh (dom h) = Some o) by look.
  assert (Ha1 : h1 !! m_impl a = Some o) by look.
  pose proof (fresh_ne _ _ _ Ha) as Hne. simpl.
  split; [apply Amount_copy_ok, Ha|].
  split; [apply fresh_lookup|].
  split; [exact Hc1|]. split; [exact Ha1|].
  split; [|split].
  - rewrite (Amount_operator_eq_ok mode h1 {| m_impl := _ |} a o o Hc1 Ha1
               (same_shape_refl o)).
    rewrite impl_equal_refl. reflexivity.
  - intros A m r h2 Hm Hr. specialize (Hm h1). rewrite Hr in Hm.
    destruct Hm as [F _]. rewrite (F _ Hne). exact Ha1.
  - intros A m r h2 Hm Hr. specialize (Hm h1). rewrite Hr in Hm.
    destruct Hm as [F _]. rewrite (F (fresh (dom h)) (not_eq_sym Hne)).
    exact Hc1.
Qed.

(** X12.  Copy assignment [a = b] gives [a] a fresh deep copy of the object
    of [b], whatever shape [a] had, and releases the object [a] owned; no
    other object changes.  The copy is made before the release, so the
    assignment of an amount to itself is safe: [a] then owns a copy of its
    former object.  After [a = b] with distinct objects, [a == b] is
    true. *)
Theorem operator_assign_deep_copy (h : heap) (a b : Amount)
    (oa ob : AmountImpl) :
  h !! m_impl a = Some oa -> h !! m_impl b = Some ob ->
  exists (a' : Amount) (h' : heap),
    Amount_operator_assign a b h = Ok a' h' /\
    h !! m_impl a' = None /\
    h' !! m_impl a' = Some ob /\
    h' !! m_impl a = None /\
    (forall l, l <> m_impl a -> l <> m_impl a' -> h' !! l = h !! l) /\
    (m_impl b <> m_impl a -> Amount_operator_eq mode a' b h' = Ok true h').
Proof.
  intros Ha Hb.
  exists {| m_impl := fresh (dom h) |},
    (delete (m_impl a) (<[fresh (dom h) := ob]> h)).
  pose proof (fresh_ne _ _ _ Ha) as Hne. simpl.
  assert (Hnew : delete (m_impl a) (<[fresh (dom h) := ob]> h)
                   !! fresh (dom h) = Some ob).
  { rewrite lookup_delete_ne by exact Hne. apply lookup_insert_eq. }
  split; [|split; [|split; [|split; [|split]]]].
  - unfold Amount_operator_assign.
    rewrite (bind_ok _ _ _ _ _ (AmountImpl_clone_ok h _ ob Hb)).
    rewrite (bind_ok _ _ _ _ _
               (dealloc_ok _ (m_impl a) oa (lookup_alloc_old _ _ _ _ Ha))).
    reflexivity.
  - apply fresh_lookup.
  - exact Hnew.
  - apply lookup_delete_eq.
  - intros l Hl Hl'. rewrite lookup_delete_ne by congruence.
    apply lookup_insert_ne. congruence.
  - intros Hba.
    rewrite (Amount_operator_eq_ok mode _ {| m_impl := _ |} b ob ob Hnew).
    + rewrite impl_equal_refl. reflexivity.
    + rewrite lookup_delete_ne by congruence. look.
    + apply same_shape_refl.
Qed.

End InPlaceOperators.

(** ** Operands of different classes *)

Section MixedClasses.

Variable sg : signedness.
Variable width : positive.

(** X13.  When [this] is an [AmountEmpty], nothing is asked of [other]:
    in every build, and whatever [other] designates (an [AmountDims]
    included), [is_less] is false, [is_equal] is true and [add], [sub] and
    [update_to_maxed] do nothing; no assertion is involved. *)
Theorem empty_this_ignores_other (mode : build) (h : heap)
    (this other : loc) :
  h !! this = Some AmountEmpty ->
  AmountImpl_is_less mode this other h = Ok false h /\
  AmountImpl_is_equal mode this other h = Ok true h /\
  AmountImpl_add sg width mode this other h = Ok tt h /\
  AmountImpl_sub sg width mode this other h = Ok tt h /\
  AmountImpl_update_to_maxed mode this other h = Ok tt h.
Proof.
  intros Ha.
  unfold AmountImpl_is_less, AmountImpl_is_equal, AmountImpl_add,
    AmountImpl_sub, AmountImpl_update_to_maxed.
  rewrite !(bind_ok _ _ _ _ _ (deref_ok _ _ _ Ha)). repeat split.
Qed.

Lemma elems_of_empty (h : heap) l :
  h !! l = Some AmountEmpty -> elems_of l h = Undefined.
Proof.
  intros Hl. unfold elems_of.
  rewrite (bind_ok _ _ _ _ _ (deref_ok _ _ _ Hl)). reflexivity.
Qed.

Lemma read_elem_empty (h : heap) l i :
  h !! l = Some AmountEmpty -> read_elem l i h = Undefined.
Proof.
  intros Hl. unfold read_elem. apply bind_undefined, elems_of_empty, Hl.
Qed.

Lemma assert_same_size_empty (h : heap) this other ea :
  h !! this = Some (AmountDims ea) ->
  h !! other = Some AmountEmpty ->
  assert_ Debug (same_size this other) h = Undefined.
Proof.
  intros Ha Hb. unfold assert_. apply bind_undefined. unfold same_size.
  rewrite (bind_ok _ _ _ _ _ (elems_size_ok _ _ _ Ha)).
  apply bind_undefined. unfold elems_size.
  apply bind_undefined, elems_of_empty, Hb.
Qed.

(** X14.  When [this] is an [AmountDims] and [other] an [AmountEmpty], the
    unchecked [static_cast] of [other] makes each of the five operations
    undefined in a build with assertions (the assertion itself reads
    through the cast).  Under [NDEBUG] the cast is reached only through an
    element access: the operations are then undefined as soon as [this]
    has a dimension, and with no dimension [is_less] is false, [is_equal]
    is true and the others do nothing. *)
Theorem dims_this_empty_other (h : heap) (this other : loc)
    (ea : list Capacity) :
  h !! this = Some (AmountDims ea) ->
  h !! other = Some AmountEmpty ->
  (AmountImpl_is_less Debug this other h = Undefined /\
   AmountImpl_is_equal Debug this other h = Undefined /\
   AmountImpl_add sg width Debug this other h = Undefined /\
   AmountImpl_sub sg width Debug this other h = Undefined /\
   AmountImpl_update_to_maxed Debug this other h = Undefined) /\
  (ea <> [] ->
   AmountImpl_is_less Release this other h = Undefined /\
   AmountImpl_is_equal Release this other h = Undefined /\
   AmountImpl_add sg width Release this other h = Undefined /\
   AmountImpl_sub sg width Release this other h = Undefined /\
   AmountImpl_update_to_maxed Release this other h = Undefined) /\
  (ea = [] ->
   AmountImpl_is_less Release this other h = Ok false h /\
   AmountImpl_is_equal Release this other h = Ok true h /\
   AmountImpl_add sg width Release this other h = Ok tt h /\
   AmountImpl_sub sg width Release this other h = Ok tt h /\
   AmountImpl_update_to_maxed Release this other h = Ok tt h).
Proof.
  intros Ha Hb.
  unfold AmountImpl_is_less, AmountImpl_is_equal, AmountImpl_add,
    AmountImpl_sub, AmountImpl_update_to_maxed.
  rewrite !(bind_ok _ _ _ _ _ (deref_ok _ _ _ Ha)). cbv iota.
  split; [|split].
  - pose proof (assert_same_size_empty h this other ea Ha Hb) as E.
    split; [|split; [|split; [|split]]]; apply bind_undefined; exact E.
  - intros Hne. destruct ea as [|x ea]; [contradiction|].
    assert (Hx : (x :: ea) !! 0%nat = Some x) by reflexivity.
    assert (Hbody : forall f : Z -> Z -> Z,
               (let* x0 := read_elem this 0 in
                let* y := read_elem other 0 in
                write_elem this 0 (f x0 y)) h = Undefined).
    { intros f. rewrite (bind_ok _ _ _ _ _ (read_elem_ok _ _ _ _ _ Ha Hx)).
      apply bind_undefined, read_elem_empty, Hb. }
    split; [|split; [|split; [|split]]].
    + unfold AmountDims_is_less, assert_.
      rewrite (bind_ok _ _ _ _ _ (eq_refl : ret tt h = Ok tt h)).
      rewrite (bind_ok _ _ _ _ _ (elems_size_ok _ _ _ Ha)).
      change (Nat.eqb (length (x :: ea)) 0) with false. cbv iota zeta.
      destruct ea as [|x1 ea]; simpl.
      * unfold bind at 1. unfold ret at 1.
        rewrite (bind_ok _ _ _ _ _ (read_elem_ok _ _ _ _ _ Ha Hx)).
        apply bind_undefined, read_elem_empty, Hb.
      * apply bind_undefined, bind_undefined.
        rewrite (bind_ok _ _ _ _ _ (read_elem_ok _ _ _ _ _ Ha Hx)).
        apply bind_undefined, read_elem_empty, Hb.
    + unfold AmountDims_is_equal, assert_.
      rewrite (bind_ok _ _ _ _ _ (eq_refl : ret tt h = Ok tt h)).
      rewrite (bind_ok _ _ _ _ _ (elems_size_ok _ _ _ Ha)). simpl.
      apply bind_undefined, bind_undefined.
      rewrite (bind_ok _ _ _ _ _ (read_elem_ok _ _ _ _ _ Ha Hx)).
      apply bind_undefined, read_elem_empty, Hb.
    + unfold AmountDims_add, assert_.
      rewrite (bind_ok _ _ _ _ _ (eq_refl : ret tt h = Ok tt h)).
      rewrite (bind_ok _ _ _ _ _ (elems_size_ok _ _ _ Ha)). simpl.
      apply bind_undefined, Hbody.
    + unfold AmountDims_sub, assert_.
      rewrite (bind_ok _ _ _ _ _ (eq_refl : ret tt h = Ok tt h)).
      rewrite (bind_ok _ _ _ _ _ (elems_size_ok _ _ _ Ha)). simpl.
      apply bind_undefined, Hbody.
    + unfold AmountDims_update_to_maxed, assert_.
      rewrite (bind_ok _ _ _ _ _ (eq_refl : ret tt h = Ok tt h)).
      rewrite (bind_ok _ _ _ _ _ (elems_size_ok _ _ _ Ha)). simpl.
      apply bind_undefined, Hbody.
  - intros ->.
    unfold AmountDims_is_less, AmountDims_is_equal, AmountDims_add,
      AmountDims_sub, AmountDims_update_to_maxed, assert_.
    rewrite !(bind_ok _ _ _ _ _ (eq_refl : ret tt h = Ok tt h)).
    rewrite !(bind_ok _ _ _ _ _ (elems_size_ok _ _ _ Ha)).
    repeat split.
Qed.

End MixedClasses.

(** ** Operands of different lengths under [NDEBUG] *)

Lemma zip_with_take_r (f : Z -> Z -> Z) (a b : list Z) :
  zip_with f a (take (length a) b) = zip_with f a b.
Proof.
  revert b. induction a as [|x a IH]; intros [|y b]; simpl; try reflexivity.
  rewrite IH. reflexivity.
Qed.

Lemma for_range_app (n m i : nat) (body : nat -> M unit) (h : heap) :
  for_range (n + m) i body h
  = (let* _ := for_range n i body in for_range m (i + n) body) h.
Proof.
  revert i h. induction n as [|n IH]; intros i h; simpl.
  - rewrite Nat.add_0_r. reflexivity.
  - unfold bind. destruct (body i h) as [[] h1|h1|]; try reflexivity.
    rewrite IH. unfold bind.
    replace (S i + n)%nat with (i + S n)%nat by lia. reflexivity.
Qed.

(** The elementwise loops on two different objects, as far as both
    sequences reach. *)
Lemma for_range_zip_prefix (f : Capacity -> Capacity -> Capacity)
    (this other : loc) (h : heap) (ea eb : list Capacity) :
  h !! this = Some (AmountDims ea) ->
  h !! other = Some (AmountDims eb) ->
  this <> other ->
  forall n i, (i + n <= length ea)%nat -> (i + n <= length eb)%nat ->
    for_range n i (fun i =>
        let* x := read_elem this i in
        let* y := read_elem other i in
        write_elem this i (f x y))
      (<[this := AmountDims (take i (zip_with f ea eb) ++ drop i ea)]> h)
    = Ok tt (<[this := AmountDims (take (i + n) (zip_with f ea eb)
                                   ++ drop (i + n) ea)]> h).
Proof.
  intros Hthis Hother Hne.
  induction n as [|n IH]; intros i Ha Hb; simpl.
  - rewrite Nat.add_0_r. reflexivity.
  - destruct (lookup_lt_is_Some_2 ea i) as [x Hx]; [lia|].
    destruct (lookup_lt_is_Some_2 eb i) as [y Hy]; [lia|].
    assert (Hzl : (i < length (zip_with f ea eb))%nat).
    { rewrite length_zip_with. lia. }
    set (cur := take i (zip_with f ea eb) ++ drop i ea).
    assert (Hcur : cur !! i = Some x).
    { unfold cur. rewrite lookup_app_r; rewrite length_take; [|lia].
      replace (i - i `min` length (zip_with f ea eb))%nat with 0%nat by lia.
      rewrite lookup_drop, Nat.add_0_r. exact Hx. }
    assert (Hcl : length cur = length ea).
    { unfold cur. rewrite length_app, length_take, length_drop. lia. }
    assert (Ho : <[this := AmountDims cur]> h !! other = Some (AmountDims eb)).
    { rewrite lookup_insert_ne by exact Hne. exact Hother. }
    erewrite bind_ok; cycle 1.
    { rewrite (bind_ok _ _ _ _ _
                 (read_elem_ok _ _ _ _ _ (lookup_insert_eq _ _ _) Hcur)).
      rewrite (bind_ok _ _ _ _ _ (read_elem_ok _ _ _ _ _ Ho Hy)).
      apply write_elem_ok; [apply lookup_insert_eq | lia]. }
    rewrite insert_insert_eq.
    replace (<[i := f x y]> cur)
      with (take (S i) (zip_with f ea eb) ++ drop (S i) ea).
    { rewrite (IH (S i)) by lia.
      replace (S i + n)%nat with (i + S n)%nat by lia. reflexivity. }
    unfold cur.
    rewrite insert_app_r_alt; rewrite length_take; [|lia].
    replace (i - i `min` length (zip_with f ea eb))%nat with 0%nat by lia.
    rewrite (drop_S _ _ _ Hx). simpl.
    rewrite (take_S_r _ _ (f x y)).
    + rewrite <- app_assoc. reflexivity.
    + rewrite lookup_zip_with, Hx. simpl. rewrite Hy. reflexivity.
Qed.

Lemma elementwise_release_shorter (f : Capacity -> Capacity -> Capacity)
    (h : heap) this other ea eb :
  h !! this = Some (AmountDims ea) ->
  h !! other = Some (AmountDims eb) ->
  (length ea < length eb)%nat ->
  (let* _ := assert_ Release (same_size this other) in
   let* n := elems_size this in
   for_range n 0 (fun i =>
     let* x := read_elem this i in
     let* y := read_elem other i in
     write_elem this i (f x y))) h
  = Ok tt (<[this := AmountDims (zip_with f ea (take (length ea) eb))]> h).
Proof.
  intros Ha Hb Hlt.
  assert (Hne : this <> other).
  { intros ->. rewrite Ha in Hb. injection Hb as <-. lia. }
  unfold assert_. rewrite (bind_ok _ _ _ _ _ (eq_refl : ret tt h = Ok tt h)).
  rewrite (bind_ok _ _ _ _ _ (elems_size_ok _ _ _ Ha)).
  pose proof (for_range_zip_prefix f this other h ea eb Ha Hb Hne
                (length ea) 0 ltac:(lia) ltac:(lia)) as E.
  rewrite take_0, drop_0 in E. simpl in E.
  rewrite (insert_id _ _ _ Ha) in E. rewrite E.
  rewrite take_ge by (rewrite length_zip_with; lia).
  rewrite drop_ge, app_nil_r by lia.
  rewrite zip_with_take_r. reflexivity.
Qed.

Lemma elementwise_release_longer (f : Capacity -> Capacity -> Capacity)
    (h : heap) this other ea eb :
  h !! this = Some (AmountDims ea) ->
  h !! other = Some (AmountDims eb) ->
  (length eb < length ea)%nat ->
  (let* _ := assert_ Release (same_size this other) in
   let* n := elems_size this in
   for_range n 0 (fun i =>
     let* x := read_elem this i in
     let* y := read_elem other i in
     write_elem this i (f x y))) h
  = Undefined.
Proof.
  intros Ha Hb Hlt.
  assert (Hne : this <> other).
  { intros ->. rewrite Ha in Hb. injection Hb as <-. lia. }
  unfold assert_. rewrite (bind_ok _ _ _ _ _ (eq_refl : ret tt h = Ok tt h)).
  rewrite (bind_ok _ _ _ _ _ (elems_size_ok _ _ _ Ha)).
  replace (length ea) with (length eb + S (length ea - length eb - 1))%nat
    at 1 by lia.
  rewrite for_range_app.
  pose proof (for_range_zip_prefix f this other h ea eb Ha Hb Hne
                (length eb) 0 ltac:(lia) ltac:(lia)) as E.
  rewrite take_0, drop_0 in E. simpl in E.
  rewrite (insert_id _ _ _ Ha) in E.
  rewrite (bind_ok _ _ _ _ _ E). simpl.
  set (cur := take (length eb) (zip_with f ea eb) ++ drop (length eb) ea).
  destruct (lookup_lt_is_Some_2 cur (length eb)) as [x Hx].
  { unfold cur. rewrite length_app, length_take, length_drop, length_zip_with.
    lia. }
  apply bind_undefined.
  rewrite (bind_ok _ _ _ _ _
             (read_elem_ok _ _ _ _ _ (lookup_insert_eq _ _ _) Hx)).
  apply bind_undefined. unfold read_elem.
  erewrite bind_ok; cycle 1.
  { apply elems_of_ok. rewrite lookup_insert_ne by exact Hne. exact Hb. }
  rewrite lookup_ge_None_2 by lia. reflexivity.
Qed.

Section Release.

Variable sg : signedness.
Variable width : positive.

(** X15.  Under [NDEBUG], when [this] has fewer dimensions than [other],
    nothing fails: [add], [sub] and [update_to_maxed] combine [this] with
    the leading dimensions of [other] and ignore the rest, and [is_equal]
    and [is_less] compare [this] with those leading dimensions. *)
Theorem release_shorter_this_uses_prefix (h : heap) (this other : loc)
    (ea eb : list Capacity) :
  h !! this = Some (AmountDims ea) ->
  h !! other = Some (AmountDims eb) ->
  (length ea < length eb)%nat ->
  AmountDims_add sg width Release this other h
  = Ok tt (<[this := AmountDims
                       (zip_with (fun x y => wrap sg width (x + y)) ea
                          (take (length ea) eb))]> h) /\
  AmountDims_sub sg width Release this other h
  = Ok tt (<[this := AmountDims
                       (zip_with (fun x y => wrap sg width (x - y)) ea
                          (take (length ea) eb))]> h) /\
  AmountDims_update_to_maxed Release this other h
  = Ok tt (<[this := AmountDims
                       (zip_with Z.max ea (take (length ea) eb))]> h) /\
  AmountDims_is_equal Release this other h
  = Ok (dims_equal ea (take (length ea) eb)) h /\
  AmountDims_is_less Release this other h
  = Ok (dims_less ea (take (length ea) eb)) h.
Proof.
  intros Ha Hb Hlt. split; [|split; [|split; [|split]]].
  - apply (elementwise_release_shorter
             (fun x y => wrap sg width (x + y))); assumption.
  - apply (elementwise_release_shorter
             (fun x y => wrap sg width (x - y))); assumption.
  - replace (zip_with Z.max ea (take (length ea) eb))
      with (zip_with std_max ea (take (length ea) eb)).
    + apply (elementwise_release_shorter std_max); assumption.
    + apply zip_with_ext; auto using std_max_is_max.
  - unfold AmountDims_is_equal, dims_equal, assert_.
    rewrite (bind_ok _ _ _ _ _ (eq_refl : ret tt h = Ok tt h)).
    rewrite (bind_ok _ _ _ _ _ (elems_size_ok _ _ _ Ha)).
    erewrite bind_ok; cycle 1.
    { apply (for_range_return_scan equal_step) with (ea := ea) (eb := eb);
        [|lia|lia].
      intros i x y Hx Hy.
      rewrite (bind_ok _ _ _ _ _ (read_elem_ok _ _ _ _ _ Ha Hx)).
      rewrite (bind_ok _ _ _ _ _ (read_elem_ok _ _ _ _ _ Hb Hy)).
      unfold equal_step. destruct (negb (x =? y)); reflexivity. }
    rewrite !drop_0, (take_ge ea) by lia.
    destruct (scan equal_step ea (take (length ea) eb)); reflexivity.
  - unfold AmountDims_is_less, dims_less, assert_.
    rewrite (bind_ok _ _ _ _ _ (eq_refl : ret tt h = Ok tt h)).
    rewrite (bind_ok _ _ _ _ _ (elems_size_ok _ _ _ Ha)).
    destruct (length ea) as [|k] eqn:Hn; [reflexivity|].
    change (Nat.eqb (S k) 0) with false. cbv iota zeta.
    replace (S k - 1)%nat with k by lia.
    erewrite bind_ok; cycle 1.
    { apply (for_range_return_scan less_step) with (ea := ea) (eb := eb);
        [|lia|lia].
      intros i x y Hx Hy.
      rewrite (bind_ok _ _ _ _ _ (read_elem_ok _ _ _ _ _ Ha Hx)).
      rewrite (bind_ok _ _ _ _ _ (read_elem_ok _ _ _ _ _ Hb Hy)).
      unfold less_step. destruct (x <? y); [reflexivity|].
      rewrite (bind_ok _ _ _ _ _ (read_elem_ok _ _ _ _ _ Ha Hx)).
      rewrite (bind_ok _ _ _ _ _ (read_elem_ok _ _ _ _ _ Hb Hy)).
      destruct (x >? y); reflexivity. }
    rewrite !drop_0, take_take, lookup_take_lt by lia.
    replace (k `min` S k)%nat with k by lia.
    destruct (scan less_step (take k ea) (take k eb)); [reflexivity|].
    destruct (lookup_lt_is_Some_2 ea k) as [x Hx]; [lia|].
    destruct (lookup_lt_is_Some_2 eb k) as [y Hy]; [lia|].
    rewrite (bind_ok _ _ _ _ _ (read_elem_ok _ _ _ _ _ Ha Hx)).
    rewrite (bind_ok _ _ _ _ _ (read_elem_ok _ _ _ _ _ Hb Hy)).
    rewrite Hx, Hy. reflexivity.
Qed.

(** X16.  Under [NDEBUG], when [this] has more dimensions than [other],
    [add], [sub] and [update_to_maxed] are undefined: their loop runs over
    the dimensions of [this] and reads [other] past its end. *)
Theorem release_longer_this_undefined (h : heap) (this other : loc)
    (ea eb : list Capacity) :
  h !! this = Some (AmountDims ea) ->
  h !! other = Some (AmountDims eb) ->
  (length eb < length ea)%nat ->
  AmountDims_add sg width Release this other h = Undefined /\
  AmountDims_sub sg width Release this other h = Undefined /\
  AmountDims_update_to_maxed Release this other h = Undefined.
Proof.
  intros Ha Hb Hlt. split; [|split].
  - apply (elementwise_release_longer
             (fun x y => wrap sg width (x + y)) h this other ea eb);
      assumption.
  - apply (elementwise_release_longer
             (fun x y => wrap sg width (x - y)) h this other ea eb);
      assumption.
  - apply (elementwise_release_longer std_max h this other ea eb);
      assumption.
Qed.

End Release.

(** ** What the member functions never touch *)

Lemma ls_ret {A} (a : A) : leaves_store (ret a).
Proof. intros h. reflexivity. Qed.

Lemma ls_abort {A} : leaves_store (@abort A).
Proof. intros h. reflexivity. Qed.

Lemma ls_undefined {A} : leaves_store (@undefined A).
Proof. intros h. exact I. Qed.

Lemma ls_bind {A B} (m : M A) (k : A -> M B) :
  leaves_store m -> (forall a, leaves_store (k a)) -> leaves_store (bind m k).
Proof.
  intros Hm Hk h. unfold bind. specialize (Hm h).
  destruct (m h) as [a h1|h1|]; [|exact Hm|exact I]. subst h1. apply Hk.
Qed.

Lemma ls_deref (l : loc) : leaves_store (deref l).
Proof. intros h. unfold deref. destruct (h !! l); [reflexivity | exact I]. Qed.

Lemma ls_elems_of (l : loc) : leaves_store (elems_of l).
Proof.
  apply ls_bind; [apply ls_deref|].
  intros [e|]; [apply ls_ret | apply ls_undefined].
Qed.

Lemma ls_elems_size (l : loc) : leaves_store (elems_size l).
Proof. apply ls_bind; [apply ls_elems_of|]. intros e. apply ls_ret. Qed.

Lemma ls_read_elem (l : loc) (i : nat) : leaves_store (read_elem l i).
Proof.
  apply ls_bind; [apply ls_elems_of|]. intros e.
  destruct (e !! i); [apply ls_ret | apply ls_undefined].
Qed.

Lemma ls_for_range_return {R} (n : nat) :
  forall i (body : nat -> M (option R)),
    (forall j, leaves_store (body j)) ->
    leaves_store (for_range_return n i body).
Proof.
  induction n as [|n IH]; intros i body Hb; simpl.
  - apply ls_ret.
  - apply ls_bind; [apply Hb|]. intros [r|]; [apply ls_ret | apply IH, Hb].
Qed.

Lemma ls_same_size (l l' : loc) : leaves_store (same_size l l').
Proof.
  apply ls_bind; [apply ls_elems_size|]. intros n.
  apply ls_bind; [apply ls_elems_size|]. intros n'. apply ls_ret.
Qed.

Lemma ls_assert (mode : build) (c : M bool) :
  leaves_store c -> leaves_store (assert_ mode c).
Proof.
  intros Hc. unfold assert_. destruct mode; [|apply ls_ret].
  apply ls_bind; [exact Hc|]. intros [|]; [apply ls_ret | apply ls_abort].
Qed.

Ltac leaves_store_step :=
  first
    [ apply ls_ret | apply ls_abort | apply ls_undefined
    | apply ls_assert | apply ls_same_size | apply ls_elems_size
    | apply ls_read_elem | apply ls_deref
    | apply ls_for_range_return; intros ?
    | apply ls_bind; [|intros ?]
    | match goal with
      | |- leaves_store (if ?b then _ else _) => destruct b
      | |- leaves_store (match ?r with _ => _ end) => destruct r
      end ].

Lemma AmountImpl_is_less_leaves_store (mode : build) (this other : loc) :
  leaves_store (AmountImpl_is_less mode this other).
Proof.
  unfold AmountImpl_is_less, AmountDims_is_less, AmountEmpty_is_less.
  cbv zeta. repeat leaves_store_step.
Qed.

Lemma AmountImpl_is_equal_leaves_store (mode : build) (this other : loc) :
  leaves_store (AmountImpl_is_equal mode this other).
Proof.
  unfold AmountImpl_is_equal, AmountDims_is_equal, AmountEmpty_is_equal.
  repeat leaves_store_step.
Qed.

(** X17.  The comparisons are read-only on every input: whatever the two
    operands are (any classes, any lengths, the same object twice) and in
    every build, when [==], [<=] or [<<] returns or aborts, the store is
    exactly as it was. *)
Theorem comparisons_leave_store (mode : build) (a b : Amount) :
  leaves_store (Amount_operator_eq mode a b) /\
  leaves_store (Amount_operator_le mode a b) /\
  leaves_store (Amount_operator_shl mode a b).
Proof.
  split; [|split].
  - apply AmountImpl_is_equal_leaves_store.
  - unfold Amount_operator_le.
    apply ls_bind; [apply AmountImpl_is_less_leaves_store|].
    intros [|]; [apply ls_ret | apply AmountImpl_is_equal_leaves_store].
  - apply AmountImpl_is_less_leaves_store.
Qed.

Section Mutators.

Variable sg : signedness.
Variable width : positive.
Variable mode : build.

Lemma AmountImpl_add_in_place (this other : loc) :
  modifies_in_place this (AmountImpl_add sg width mode this other).
Proof.
  unfold AmountImpl_add. apply mip_bind; [apply mip_deref|].
  intros [e|]; [apply AmountDims_add_in_place | apply mip_ret].
Qed.

Lemma AmountImpl_sub_in_place (this other : loc) :
  modifies_in_place this (AmountImpl_sub sg width mode this other).
Proof.
  unfold AmountImpl_sub. apply mip_bind; [apply mip_deref|].
  intros [e|]; [apply AmountDims_sub_in_place | apply mip_ret].
Qed.

Lemma AmountImpl_update_to_maxed_in_place (this other : loc) :
  modifies_in_place this (AmountImpl_update_to_maxed mode this other).
Proof.
  unfold AmountImpl_update_to_maxed. apply mip_bind; [apply mip_deref|].
  intros [e|]; [apply AmountDims_update_to_maxed_in_place | apply mip_ret].
Qed.

Lemma AmountImpl_set_zero_in_place (this : loc) :
  modifies_in_place this (AmountImpl_set_zero this).
Proof.
  unfold AmountImpl_set_zero. apply mip_bind; [apply mip_deref|].
  intros [e|]; [apply AmountDims_set_zero_in_place | apply mip_ret].
Qed.

(** X18.  The mutating member functions work in place on every input:
    whatever the operands are and in every build, when [+=], [-=],
    [update_to_maxed] or [set_zero] returns or aborts, no object other
    than the one [this] owns has changed, and that one still has its class
    and its number of dimensions. *)
Theorem mutators_modify_in_place (a b : Amount) :
  modifies_in_place (m_impl a)
    (Amount_operator_plus_assign sg width mode a b) /\
  modifies_in_place (m_impl a)
    (Amount_operator_minus_assign sg width mode a b) /\
  modifies_in_place (m_impl a) (Amount_update_to_maxed mode a b) /\
  modifies_in_place (m_impl a) (AmountImpl_set_zero (m_impl a)).
Proof.
  split; [|split; [|split]].
  - apply mip_bind; [apply AmountImpl_add_in_place | intros _; apply mip_ret].
  - apply mip_bind; [apply AmountImpl_sub_in_place | intros _; apply mip_ret].
  - apply AmountImpl_update_to_maxed_in_place.
  - apply AmountImpl_set_zero_in_place.
Qed.

Lemma Amount_copy_undefined (h : heap) (a : Amount) :
  h !! m_impl a = None -> Amount_copy a h = Undefined.
Proof.
  intros Ha. unfold Amount_copy, AmountImpl_clone, bind, deref.
  rewrite Ha. reflexivity.
Qed.

(** Code that copies an amount and then works in place on the copy. *)
Lemma copy_then_in_place {A} (a : Amount) (k : Amount -> M A) :
  (forall c, modifies_in_place (m_impl c) (k c)) ->
  preserves_objects (let* c := Amount_copy a in k c).
Proof.
  intros Hk h. destruct (h !! m_impl a) as [o|] eqn:Ha.
  - rewrite (bind_ok _ _ _ _ _ (Amount_copy_ok h a o Ha)).
    specialize (Hk {| m_impl := fresh (dom h) |} (<[fresh (dom h) := o]> h)).
    simpl in Hk.
    destruct (k _ _) as [r h2|h2|]; [| |exact I];
      destruct Hk as [F _]; intros l [v Hl];
      (rewrite (F l (fresh_ne _ _ _ Hl)); rewrite Hl; look).
  - rewrite (bind_undefined _ _ _ (Amount_copy_undefined h a Ha)). exact I.
Qed.

(** X19.  The free operators and [get_zero] never change an object that
    exists: whatever the operands are (also of different shapes) and in
    every build, when [a + b], [a - b] or [a.get_zero()] returns or
    aborts, every object the store had is as it was. *)
Theorem free_operators_preserve_objects (a b : Amount) :
  preserves_objects (operator_plus sg width mode a b) /\
  preserves_objects (operator_minus sg width mode a b) /\
  preserves_objects (Amount_get_zero a).
Proof.
  split; [|split].
  - apply copy_then_in_place. intros c.
    apply mip_bind; [|intros _; apply mip_ret].
    apply mip_bind; [apply AmountImpl_add_in_place | intros _; apply mip_ret].
  - apply copy_then_in_place. intros c.
    apply mip_bind; [|intros _; apply mip_ret].
    apply mip_bind; [apply AmountImpl_sub_in_place | intros _; apply mip_ret].
  - apply copy_then_in_place. intros c.
    apply mip_bind; [apply AmountImpl_set_zero_in_place|].
    intros _. apply mip_ret.
Qed.

End Mutators.

(** ** The failed assertion, seen through the wrapper *)

Section WrapperMismatch.

Variable sg : signedness.
Variable width : positive.

(** X20.  In a build with assertions, on two [AmountDims] of different
    lengths every operator of the wrapper ends in the failed assertion:
    [+=], [-=], [==], [<=], [<<] and [update_to_maxed] with the store as
    it was, and the free [+] and [-] after they have made their copy of
    the left operand, which is then the only difference from the store
    before the call. *)
Theorem wrapper_length_mismatch_aborts (h : heap) (a b : Amount)
    (ea eb : list Capacity) :
  h !! m_impl a = Some (AmountDims ea) ->
  h !! m_impl b = Some (AmountDims eb) ->
  length ea <> length eb ->
  (Amount_operator_plus_assign sg width Debug a b h = Aborted h /\
   Amount_operator_minus_assign sg width Debug a b h = Aborted h /\
   Amount_operator_eq Debug a b h = Aborted h /\
   Amount_operator_le Debug a b h = Aborted h /\
   Amount_operator_shl Debug a b h = Aborted h /\
   Amount_update_to_maxed Debug a b h = Aborted h) /\
  operator_plus sg width Debug a b h
  = Aborted (<[fresh (dom h) := AmountDims ea]> h) /\
  operator_minus sg width Debug a b h
  = Aborted (<[fresh (dom h) := AmountDims ea]> h).
Proof.
  intros Ha Hb Hne.
  assert (Hab : forall (h0 : heap) (p : loc),
             h0 !! p = Some (AmountDims ea) ->
             h0 !! m_impl b = Some (AmountDims eb) ->
             AmountImpl_add sg width Debug p (m_impl b) h0 = Aborted h0 /\
             AmountImpl_sub sg width Debug p (m_impl b) h0 = Aborted h0 /\
             AmountImpl_is_equal Debug p (m_impl b) h0 = Aborted h0 /\
             AmountImpl_is_less Debug p (m_impl b) h0 = Aborted h0 /\
             AmountImpl_update_to_maxed Debug p (m_impl b) h0 = Aborted h0).
  { intros h0 p Hp Hb0.
    pose proof (assert_same_size_aborts h0 p (m_impl b) ea eb Hp Hb0 Hne) as E.
    unfold AmountImpl_add, AmountImpl_sub, AmountImpl_is_equal,
      AmountImpl_is_less, AmountImpl_update_to_maxed.
    rewrite !(bind_ok _ _ _ _ _ (deref_ok _ _ _ Hp)). cbv iota.
    split; [|split; [|split; [|split]]]; apply bind_aborted; exact E. }
  destruct (Hab h (m_impl a) Ha Hb) as (Eadd & Esub & Eeq & Eless & Emax).
  split; [split; [|split; [|split; [|split; [|split]]]] | split].
  - apply bind_aborted. exact Eadd.
  - apply bind_aborted. exact Esub.
  - exact Eeq.
  - apply bind_aborted. exact Eless.
  - exact Eless.
  - exact Emax.
  - unfold operator_plus.
    rewrite (bind_ok _ _ _ _ _ (Amount_copy_ok h a _ Ha)).
    apply bind_aborted, bind_aborted.
    apply (Hab _ (fresh (dom h))); look.
  - unfold operator_minus.
    rewrite (bind_ok _ _ _ _ _ (Amount_copy_ok h a _ Ha)).
    apply bind_aborted, bind_aborted.
    apply (Hab _ (fresh (dom h))); look.
Qed.

End WrapperMismatch.

(** ** The further properties at the examples *)

Lemma is_equal_iff_same_elems_witness :
  store_example_2 !! m_impl (amount_at 1) = Some (AmountDims [1; 2]) /\
  store_example_2 !! m_impl (amount_at 2) = Some (AmountDims [1; 2]) /\
  length [1; 2] = length [1; 2] /\
  exists r : bool,
    Amount_operator_eq Release (amount_at 1) (amount_at 2) store_example_2
    = Ok r store_example_2 /\
    (r = true <-> forall i : nat, [1; 2] !! i = [1; 2] !! i).
Proof.
  split; [reflexivity|]. split; [reflexivity|]. split; [reflexivity|].
  apply (is_equal_iff_same_elems Release store_example_2 (amount_at 1)
           (amount_at 2) [1; 2] [1; 2]); reflexivity.
Defined.

Lemma operator_eq_equivalence_witness :
  (store_mixed !! m_impl (amount_at 1) = Some AmountEmpty /\
   Amount_operator_eq Debug (amount_at 1) (amount_at 1) store_mixed
   = Ok true store_mixed) /\
  (store_example_1 !! m_impl (amount_at 1) = Some (AmountDims [2; 5; 1]) /\
   store_example_1 !! m_impl (amount_at 2) = Some (AmountDims [2; 3; 9]) /\
   same_shape (AmountDims [2; 5; 1]) (AmountDims [2; 3; 9]) /\
   exists r : bool,
     Amount_operator_eq Debug (amount_at 1) (amount_at 2) store_example_1
     = Ok r store_example_1 /\
     Amount_operator_eq Debug (amount_at 2) (amount_at 1) store_example_1
     = Ok r store_example_1) /\
  (Amount_operator_eq Debug (amount_at 1) (amount_at 2) store_example_2
   = Ok true store_example_2 /\
   Amount_operator_eq Debug (amount_at 2) (amount_at 1) store_example_2
   = Ok true store_example_2 /\
   Amount_operator_eq Debug (amount_at 1) (amount_at 1) store_example_2
   = Ok true store_example_2).
Proof.
  split; [|split].
  - split; [reflexivity|].
    apply (proj1 (operator_eq_equivalence Debug) store_mixed (amount_at 1)
             AmountEmpty). reflexivity.
  - split; [reflexivity|]. split; [reflexivity|]. split; [reflexivity|].
    apply (proj1 (proj2 (operator_eq_equivalence Debug)) store_example_1
             (amount_at 1) (amount_at 2) (AmountDims [2; 5; 1])
             (AmountDims [2; 3; 9])); reflexivity.
  - split; [reflexivity|]. split; [reflexivity|].
    apply (proj2 (proj2 (operator_eq_equivalence Debug)) store_example_2
             (amount_at 1) (amount_at 2) (amount_at 1) (AmountDims [1; 2])
             (AmountDims [1; 2]) (AmountDims [1; 2])); reflexivity.
Defined.

Lemma is_less_iff_first_difference_witness :
  store_example_1 !! 2%positive = Some (AmountDims [2; 3; 9]) /\
  store_example_1 !! 1%positive = Some (AmountDims [2; 5; 1]) /\
  length [2; 3; 9] = length [2; 5; 1] /\
  exists r : bool,
    AmountDims_is_less Debug 2%positive 1%positive store_example_1
    = Ok r store_example_1 /\
    (r = true <->
     exists i x y, take i [2; 3; 9] = take i [2; 5; 1] /\
                   [2; 3; 9] !! i = Some x /\ [2; 5; 1] !! i = Some y /\
                   x < y).
Proof.
  split; [reflexivity|]. split; [reflexivity|]. split; [reflexivity|].
  apply (is_less_iff_first_difference Debug store_example_1 2%positive
           1%positive [2; 3; 9] [2; 5; 1]); reflexivity.
Defined.

Lemma operator_shl_strict_order_witness :
  (store_mixed !! m_impl (amount_at 2) = Some (AmountDims [1; 2]) /\
   Amount_operator_shl Debug (amount_at 2) (amount_at 2) store_mixed
   = Ok false store_mixed) /\
  (Amount_operator_shl Debug (amount_at 1) (amount_at 2) store_increasing
   = Ok true store_increasing /\
   Amount_operator_shl Debug (amount_at 2) (amount_at 3) store_increasing
   = Ok true store_increasing /\
   Amount_operator_shl Debug (amount_at 1) (amount_at 3) store_increasing
   = Ok true store_increasing).
Proof.
  split.
  - split; [reflexivity|].
    apply (proj1 (operator_shl_strict_order Debug) store_mixed (amount_at 2)
             (AmountDims [1; 2])). reflexivity.
  - split; [reflexivity|]. split; [reflexivity|].
    apply (proj2 (operator_shl_strict_order Debug) store_increasing
             (amount_at 1) (amount_at 2) (amount_at 3) (AmountDims [1; 2])
             (AmountDims [1; 5]) (AmountDims [2; 0])); reflexivity.
Defined.

Lemma operator_le_total_order_witness :
  (store_mixed !! m_impl (amount_at 1) = Some AmountEmpty /\
   Amount_operator_le Debug (amount_at 1) (amount_at 1) store_mixed
   = Ok true store_mixed) /\
  (store_example_1 !! m_impl (amount_at 1) = Some (AmountDims [2; 5; 1]) /\
   store_example_1 !! m_impl (amount_at 2) = Some (AmountDims [2; 3; 9]) /\
   same_shape (AmountDims [2; 5; 1]) (AmountDims [2; 3; 9]) /\
   exists r r' : bool,
     Amount_operator_le Debug (amount_at 1) (amount_at 2) store_example_1
     = Ok r store_example_1 /\
     Amount_operator_le Debug (amount_at 2) (amount_at 1) store_example_1
     = Ok r' store_example_1 /\
     (r = true \/ r' = true)) /\
  (Amount_operator_le Debug (amount_at 1) (amount_at 2) store_increasing
   = Ok true store_increasing /\
   Amount_operator_le Debug (amount_at 2) (amount_at 3) store_increasing
   = Ok true store_increasing /\
   Amount_operator_le Debug (amount_at 1) (amount_at 3) store_increasing
   = Ok true store_increasing) /\
  (Amount_operator_le Debug (amount_at 1) (amount_at 2) store_example_2
   = Ok true store_example_2 /\
   Amount_operator_le Debug (amount_at 2) (amount_at 1) store_example_2
   = Ok true store_example_2 /\
   Amount_operator_eq Debug (amount_at 1) (amount_at 2) store_example_2
   = Ok true store_example_2).
Proof.
  split; [|split; [|split]].
  - split; [reflexivity|].
    apply (proj1 (operator_le_total_order Debug) store_mixed (amount_at 1)
             AmountEmpty). reflexivity.
  - split; [reflexivity|]. split; [reflexivity|]. split; [reflexivity|].
    apply (proj1 (proj2 (operator_le_total_order Debug)) store_example_1
             (amount_at 1) (amount_at 2) (AmountDims [2; 5; 1])
             (AmountDims [2; 3; 9])); reflexivity.
  - split; [reflexivity|]. split; [reflexivity|].
    apply (proj1 (proj2 (proj2 (operator_le_total_order Debug)))
             store_increasing (amount_at 1) (amount_at 2) (amount_at 3)
             (AmountDims [1; 2]) (AmountDims [1; 5]) (AmountDims [2; 0]));
      reflexivity.
  - split; [reflexivity|]. split; [reflexivity|].
    apply (proj2 (proj2 (proj2 (operator_le_total_order Debug)))
             store_example_2 (amount_at 1) (amount_at 2) (AmountDims [1; 2])
             (AmountDims [1; 2])); reflexivity.
Defined.

Lemma operator_plus_comm_assoc_witness :
  (store_example_1 !! m_impl (amount_at 1) = Some (AmountDims [2; 5; 1]) /\
   store_example_1 !! m_impl (amount_at 2) = Some (AmountDims [2; 3; 9]) /\
   same_shape (AmountDims [2; 5; 1]) (AmountDims [2; 3; 9]) /\
   exists h' : heap,
     (let* s := operator_plus Signed 64 Debug (amount_at 1) (amount_at 2) in
      let* t := operator_plus Signed 64 Debug (amount_at 2) (amount_at 1) in
      Amount_operator_eq Debug s t) store_example_1 = Ok true h') /\
  (store_increasing !! m_impl (amount_at 1) = Some (AmountDims [1; 2]) /\
   store_increasing !! m_impl (amount_at 2) = Some (AmountDims [1; 5]) /\
   store_increasing !! m_impl (amount_at 3) = Some (AmountDims [2; 0]) /\
   same_shape (AmountDims [1; 2]) (AmountDims [1; 5]) /\
   same_shape (AmountDims [1; 5]) (AmountDims [2; 0]) /\
   exists h' : heap,
     (let* s1 := operator_plus Unsigned 8 Debug (amount_at 1) (amount_at 2) in
      let* s2 := operator_plus Unsigned 8 Debug s1 (amount_at 3) in
      let* t1 := operator_plus Unsigned 8 Debug (amount_at 2) (amount_at 3) in
      let* t2 := operator_plus Unsigned 8 Debug (amount_at 1) t1 in
      Amount_operator_eq Debug s2 t2) store_increasing = Ok true h').
Proof.
  split.
  - split; [reflexivity|]. split; [reflexivity|]. split; [reflexivity|].
    apply (proj1 (operator_plus_comm_assoc Signed 64 Debug) store_example_1
             (amount_at 1) (amount_at 2) (AmountDims [2; 5; 1])
             (AmountDims [2; 3; 9])); reflexivity.
  - split; [reflexivity|]. split; [reflexivity|]. split; [reflexivity|].
    split; [reflexivity|]. split; [reflexivity|].
    apply (proj2 (operator_plus_comm_assoc Unsigned 8 Debug) store_increasing
             (amount_at 1) (amount_at 2) (amount_at 3) (AmountDims [1; 2])
             (AmountDims [1; 5]) (AmountDims [2; 0])); reflexivity.
Defined.

Lemma sub_add_round_trip_witness :
  store_example_1 !! m_impl (amount_at 1) = Some (AmountDims [2; 5; 1]) /\
  store_example_1 !! m_impl (amount_at 2) = Some (AmountDims [2; 3; 9]) /\
  same_shape (AmountDims [2; 5; 1]) (AmountDims [2; 3; 9]) /\
  well_formed Unsigned 8 (AmountDims [2; 5; 1]) /\
  exists h' : heap,
    (let* d := operator_minus Unsigned 8 Debug (amount_at 1) (amount_at 2) in
     let* s := operator_plus Unsigned 8 Debug d (amount_at 2) in
     Amount_operator_eq Debug s (amount_at 1)) store_example_1 = Ok true h' /\
    forall l, is_Some (store_example_1 !! l) -> h' !! l = store_example_1 !! l.
Proof.
  split; [reflexivity|]. split; [reflexivity|]. split; [reflexivity|].
  split; [repeat constructor|].
  apply (sub_add_round_trip Unsigned 8 Debug store_example_1 (amount_at 1)
           (amount_at 2) (AmountDims [2; 5; 1]) (AmountDims [2; 3; 9]));
    try reflexivity.
  repeat constructor.
Defined.

Lemma plus_assign_then_minus_assign_witness :
  (store_example_1 !! m_impl (amount_at 1) = Some (AmountDims [2; 5; 1]) /\
   store_example_1 !! m_impl (amount_at 2) = Some (AmountDims [2; 3; 9]) /\
   same_shape (AmountDims [2; 5; 1]) (AmountDims [2; 3; 9]) /\
   well_formed Signed 64 (AmountDims [2; 5; 1]) /\
   m_impl (amount_at 1) <> m_impl (amount_at 2) /\
   (let* _ := Amount_operator_plus_assign Signed 64 Debug (amount_at 1)
                (amount_at 2) in
    Amount_operator_minus_assign Signed 64 Debug (amount_at 1) (amount_at 2))
     store_example_1 = Ok (amount_at 1) store_example_1) /\
  (store_example_1 !! m_impl (amount_at 1) = Some (AmountDims [2; 5; 1]) /\
   (let* _ := Amount_operator_plus_assign Signed 64 Debug (amount_at 1)
                (amount_at 1) in
    Amount_operator_minus_assign Signed 64 Debug (amount_at 1) (amount_at 1))
     store_example_1
   = Ok (amount_at 1)
       (<[m_impl (amount_at 1) := zeroed (AmountDims [2; 5; 1])]>
          store_example_1)).
Proof.
  split.
  - split; [reflexivity|]. split; [reflexivity|]. split; [reflexivity|].
    split; [repeat constructor|]. split; [discriminate|].
    apply (proj1 (plus_assign_then_minus_assign Signed 64 Debug)
             store_example_1 (amount_at 1) (amount_at 2)
             (AmountDims [2; 5; 1]) (AmountDims [2; 3; 9]));
      try reflexivity; [repeat constructor | discriminate].
  - split; [reflexivity|].
    apply (proj2 (plus_assign_then_minus_assign Signed 64 Debug)
             store_example_1 (amount_at 1) (AmountDims [2; 5; 1])).
    reflexivity.
Defined.

Lemma update_to_maxed_upper_bound_witness :
  store_example_1 !! m_impl (amount_at 1) = Some (AmountDims [2; 5; 1]) /\
  store_example_1 !! m_impl (amount_at 2) = Some (AmountDims [2; 3; 9]) /\
  same_shape (AmountDims [2; 5; 1]) (AmountDims [2; 3; 9]) /\
  exists h' : heap,
    (let* c := Amount_copy (amount_at 1) in
     let* _ := Amount_update_to_maxed Debug (amount_at 1) (amount_at 2) in
     let* r := Amount_operator_le Debug c (amount_at 1) in
     let* r' := Amount_operator_le Debug (amount_at 2) (amount_at 1) in
     ret (r && r')) store_example_1 = Ok true h'.
Proof.
  split; [reflexivity|]. split; [reflexivity|]. split; [reflexivity|].
  apply (update_to_maxed_upper_bound Debug store_example_1 (amount_at 1)
           (amount_at 2) (AmountDims [2; 5; 1]) (AmountDims [2; 3; 9]));
    reflexivity.
Defined.

Lemma update_to_maxed_idempotent_commutative_witness :
  store_example_1 !! m_impl (amount_at 1) = Some (AmountDims [2; 5; 1]) /\
  store_example_1 !! m_impl (amount_at 2) = Some (AmountDims [2; 3; 9]) /\
  same_shape (AmountDims [2; 5; 1]) (AmountDims [2; 3; 9]) /\
  (exists h1 : heap,
      Amount_update_to_maxed Debug (amount_at 1) (amount_at 2) store_example_1
      = Ok tt h1 /\
      Amount_update_to_maxed Debug (amount_at 1) (amount_at 2) h1
      = Ok tt h1) /\
  (exists h' : heap,
      (let* c := Amount_copy (amount_at 1) in
       let* _ := Amount_update_to_maxed Debug c (amount_at 2) in
       let* c' := Amount_copy (amount_at 2) in
       let* _ := Amount_update_to_maxed Debug c' (amount_at 1) in
       Amount_operator_eq Debug c c') store_example_1 = Ok true h').
Proof.
  split; [reflexivity|]. split; [reflexivity|]. split; [reflexivity|].
  apply (update_to_maxed_idempotent_commutative Debug store_example_1
           (amount_at 1) (amount_at 2) (AmountDims [2; 5; 1])
           (AmountDims [2; 3; 9])); reflexivity.
Defined.

Lemma copy_is_deep_witness :
  store_example_1 !! m_impl (amount_at 1) = Some (AmountDims [2; 5; 1]) /\
  exists (c : Amount) (h1 : heap),
    Amount_copy (amount_at 1) store_example_1 = Ok c h1 /\
    store_example_1 !! m_impl c = None /\
    h1 !! m_impl c = Some (AmountDims [2; 5; 1]) /\
    h1 !! m_impl (amount_at 1) = Some (AmountDims [2; 5; 1]) /\
    Amount_operator_eq Debug c (amount_at 1) h1 = Ok true h1 /\
    (forall (A : Type) (m : M A) (r : A) (h2 : heap),
        modifies_in_place (m_impl c) m -> m h1 = Ok r h2 ->
        h2 !! m_impl (amount_at 1) = Some (AmountDims [2; 5; 1])) /\
    (forall (A : Type) (m : M A) (r : A) (h2 : heap),
        modifies_in_place (m_impl (amount_at 1)) m -> m h1 = Ok r h2 ->
        h2 !! m_impl c = Some (AmountDims [2; 5; 1])).
Proof.
  split; [reflexivity|].
  apply (copy_is_deep Debug store_example_1 (amount_at 1)
           (AmountDims [2; 5; 1])). reflexivity.
Defined.

Lemma operator_assign_deep_copy_witness :
  store_example_3 !! m_impl (amount_at 1) = Some (AmountDims [1; 2]) /\
  store_example_3 !! m_impl (amount_at 2) = Some (AmountDims [1; 2; 3]) /\
  exists (a' : Amount) (h' : heap),
    Amount_operator_assign (amount_at 1) (amount_at 2) store_example_3
    = Ok a' h' /\
    store_example_3 !! m_impl a' = None /\
    h' !! m_impl a' = Some (AmountDims [1; 2; 3]) /\
    h' !! m_impl (amount_at 1) = None /\
    (forall l, l <> m_impl (amount_at 1) -> l <> m_impl a' ->
               h' !! l = store_example_3 !! l) /\
    (m_impl (amount_at 2) <> m_impl (amount_at 1) ->
     Amount_operator_eq Debug a' (amount_at 2) h' = Ok true h').
Proof.
  split; [reflexivity|]. split; [reflexivity|].
  apply (operator_assign_deep_copy Debug store_example_3 (amount_at 1)
           (amount_at 2) (AmountDims [1; 2]) (AmountDims [1; 2; 3]));
    reflexivity.
Defined.

Lemma empty_this_ignores_other_witness :
  store_mixed !! 1%positive = Some AmountEmpty /\
  AmountImpl_is_less Debug 1%positive 2%positive store_mixed
  = Ok false store_mixed /\
  AmountImpl_is_equal Debug 1%positive 2%positive store_mixed
  = Ok true store_mixed /\
  AmountImpl_add Signed 64 Debug 1%positive 2%positive store_mixed
  = Ok tt store_mixed /\
  AmountImpl_sub Signed 64 Debug 1%positive 2%positive store_mixed
  = Ok tt store_mixed /\
  AmountImpl_update_to_maxed Debug 1%positive 2%positive store_mixed
  = Ok tt store_mixed.
Proof.
  split; [reflexivity|].
  apply (empty_this_ignores_other Signed 64 Debug store_mixed 1%positive
           2%positive). reflexivity.
Defined.

Lemma dims_this_empty_other_witness :
  store_mixed !! 2%positive = Some (AmountDims [1; 2]) /\
  store_mixed !! 1%positive = Some AmountEmpty /\
  [1; 2] <> [] /\
  (AmountImpl_is_less Debug 2%positive 1%positive store_mixed = Undefined /\
   AmountImpl_is_equal Debug 2%positive 1%positive store_mixed = Undefined /\
   AmountImpl_add Signed 64 Debug 2%positive 1%positive store_mixed
   = Undefined /\
   AmountImpl_sub Signed 64 Debug 2%positive 1%positive store_mixed
   = Undefined /\
   AmountImpl_update_to_maxed Debug 2%positive 1%positive store_mixed
   = Undefined) /\
  (AmountImpl_is_less Release 2%positive 1%positive store_mixed = Undefined /\
   AmountImpl_is_equal Release 2%positive 1%positive store_mixed
   = Undefined /\
   AmountImpl_add Signed 64 Release 2%positive 1%positive store_mixed
   = Undefined /\
   AmountImpl_sub Signed 64 Release 2%positive 1%positive store_mixed
   = Undefined /\
   AmountImpl_update_to_maxed Release 2%positive 1%positive store_mixed
   = Undefined).
Proof.
  split; [reflexivity|]. split; [reflexivity|]. split; [discriminate|].
  destruct (dims_this_empty_other Signed 64 store_mixed 2%positive 1%positive
              [1; 2]) as (Hdebug & Hrelease & _);
    [reflexivity | reflexivity |].
  split; [exact Hdebug|]. apply Hrelease. discriminate.
Defined.

Lemma release_shorter_this_uses_prefix_witness :
  store_example_3 !! 1%positive = Some (AmountDims [1; 2]) /\
  store_example_3 !! 2%positive = Some (AmountDims [1; 2; 3]) /\
  (length [1; 2] < length [1; 2; 3])%nat /\
  AmountDims_add Signed 64 Release 1%positive 2%positive store_example_3
  = Ok tt (<[1%positive := AmountDims
                             (zip_with (fun x y => wrap Signed 64 (x + y))
                                [1; 2] (take (length [1; 2]) [1; 2; 3]))]>
             store_example_3) /\
  AmountDims_sub Signed 64 Release 1%positive 2%positive store_example_3
  = Ok tt (<[1%positive := AmountDims
                             (zip_with (fun x y => wrap Signed 64 (x - y))
                                [1; 2] (take (length [1; 2]) [1; 2; 3]))]>
             store_example_3) /\
  AmountDims_update_to_maxed Release 1%positive 2%positive store_example_3
  = Ok tt (<[1%positive := AmountDims
                             (zip_with Z.max [1; 2]
                                (take (length [1; 2]) [1; 2; 3]))]>
             store_example_3) /\
  AmountDims_is_equal Release 1%positive 2%positive store_example_3
  = Ok (dims_equal [1; 2] (take (length [1; 2]) [1; 2; 3])) store_example_3 /\
  AmountDims_is_less Release 1%positive 2%positive store_example_3
  = Ok (dims_less [1; 2] (take (length [1; 2]) [1; 2; 3])) store_example_3.
Proof.
  split; [reflexivity|]. split; [reflexivity|]. split; [simpl; lia|].
  apply (release_shorter_this_uses_prefix Signed 64 store_example_3
           1%positive 2%positive [1; 2] [1; 2; 3]);
    [reflexivity | reflexivity | simpl; lia].
Defined.

Lemma release_longer_this_undefined_witness :
  store_example_3 !! 2%positive = Some (AmountDims [1; 2; 3]) /\
  store_example_3 !! 1%positive = Some (AmountDims [1; 2]) /\
  (length [1; 2] < length [1; 2; 3])%nat /\
  AmountDims_add Signed 64 Release 2%positive 1%positive store_example_3
  = Undefined /\
  AmountDims_sub Signed 64 Release 2%positive 1%positive store_example_3
  = Undefined /\
  AmountDims_update_to_maxed Release 2%positive 1%positive store_example_3
  = Undefined.
Proof.
  split; [reflexivity|]. split; [reflexivity|]. split; [simpl; lia|].
  apply (release_longer_this_undefined Signed 64 store_example_3 2%positive
           1%positive [1; 2; 3] [1; 2]);
    [reflexivity | reflexivity | simpl; lia].
Defined.

Lemma wrapper_length_mismatch_aborts_witness :
  store_example_3 !! m_impl (amount_at 1) = Some (AmountDims [1; 2]) /\
  store_example_3 !! m_impl (amount_at 2) = Some (AmountDims [1; 2; 3]) /\
  length [1; 2] <> length [1; 2; 3] /\
  (Amount_operator_plus_assign Signed 64 Debug (amount_at 1) (amount_at 2)
     store_example_3 = Aborted store_example_3 /\
   Amount_operator_minus_assign Signed 64 Debug (amount_at 1) (amount_at 2)
     store_example_3 = Aborted store_example_3 /\
   Amount_operator_eq Debug (amount_at 1) (amount_at 2) store_example_3
   = Aborted store_example_3 /\
   Amount_operator_le Debug (amount_at 1) (amount_at 2) store_example_3
   = Aborted store_example_3 /\
   Amount_operator_shl Debug (amount_at 1) (amount_at 2) store_example_3
   = Aborted store_example_3 /\
   Amount_update_to_maxed Debug (amount_at 1) (amount_at 2) store_example_3
   = Aborted store_example_3) /\
  operator_plus Signed 64 Debug (amount_at 1) (amount_at 2) store_example_3
  = Aborted (<[fresh (dom store_example_3) := AmountDims [1; 2]]>
               store_example_3) /\
  operator_minus Signed 64 Debug (amount_at 1) (amount_at 2) store_example_3
  = Aborted (<[fresh (dom store_example_3) := AmountDims [1; 2]]>
               store_example_3).
Proof.
  split; [reflexivity|]. split; [reflexivity|]. split; [discriminate|].
  apply (wrapper_length_mismatch_aborts Signed 64 store_example_3
           (amount_at 1) (amount_at 2) [1; 2] [1; 2; 3]);
    [reflexivity | reflexivity | discriminate].
Defined.
